(** * EcoTrack API server: participation lifecycle and statistics

    A shallow embedding of the challenge-participation routes of the
    EcoTrack REST backend (api/index.js, with the older server.js copy
    where the two differ) and of the MongoDB operations they issue:

    - [POST   /api/challenges/join/:id]         (Join)
    - [GET    /api/user-challenges/me]          (ListMine)
    - [PATCH  /api/user-challenges/:id/progress] (UpdateProgress)
    - [DELETE /api/user-challenges/:id]         (Leave)
    - [GET    /api/stats]                       (ComputeStats)
    - [DELETE /api/challenges/:id]              (challenge deletion)

    A collection is the list of its documents in natural (insertion)
    order; [findOne], [updateOne] and [deleteOne] act on the first
    document that matches.  A handler is a computation in a small
    state-and-exception monad over the database which also records the
    store operations it issues; the [try { ... } catch] around every
    handler body turns an exception into a 500 reply and keeps whatever
    was written before the throw.

    What a handler takes from its environment is an argument of it: the
    readings of the clock ([new Date()]) and the [_id] the driver
    generates for an inserted document.  Requests are served one after
    the other; interleavings of concurrent requests are not modelled.

    The second part is the Express application itself: the stack of
    middleware and routes the two files build, [getDb], [attachRoutes]
    and the walk of a request through the stack. *)

From Stdlib Require Import ZArith QArith String Ascii List Lia Bool.
From stdpp Require Import base decidable option list strings.
Import ListNotations.

Local Open Scope Z_scope.
Local Open Scope string_scope.
Local Open Scope list_scope.

(** ** JavaScript numbers

    Comparison, [Math.min] and [Math.max] are exact on IEEE doubles, so a
    number is modelled as NaN, an infinity or an exact rational.  The
    routes themselves never add two numbers; the one sum of the program
    is computed by the database and is taken from it (see [SumOps]). *)

Inductive number : Type :=
| NaN
| NegInf
| Fin (q : Q)
| PosInf.

Definition num (z : Z) : number := Fin (inject_Z z).

(** [a < b]; every comparison with NaN is false. *)
Definition num_lt (a b : number) : bool :=
  match a, b with
  | NaN, _ | _, NaN => false
  | _, NegInf => false
  | NegInf, _ => true
  | PosInf, _ => false
  | Fin _, PosInf => true
  | Fin x, Fin y => negb (Qle_bool y x)
  end.

(** [a <= b]. *)
Definition num_le (a b : number) : bool :=
  match a, b with
  | NaN, _ | _, NaN => false
  | NegInf, _ => true
  | _, PosInf => true
  | _, NegInf => false
  | PosInf, _ => false
  | Fin x, Fin y => Qle_bool x y
  end.

(** [a >= b] *)
Definition num_ge (a b : number) : bool := num_le b a.

(** [Math.max(a, b)]: NaN if either argument is NaN, else the larger. *)
Definition Math_max (a b : number) : number :=
  match a, b with
  | NaN, _ | _, NaN => NaN
  | _, _ => if num_lt a b then b else a
  end.

(** [Math.min(a, b)]: NaN if either argument is NaN, else the smaller. *)
Definition Math_min (a b : number) : number :=
  match a, b with
  | NaN, _ | _, NaN => NaN
  | _, _ => if num_lt b a then b else a
  end.

(** Truthiness of a number: everything but 0 and NaN. *)
Definition num_truthy (a : number) : bool :=
  match a with
  | NaN => false
  | Fin q => negb (Qeq_bool q 0)
  | _ => true
  end.

(** [a || 0] on numbers. *)
Definition or_zero (a : number) : number :=
  if num_truthy a then a else num 0.

Definition isNaN (a : number) : bool :=
  match a with NaN => true | _ => false end.

(** The closed interval [0,100], as a proposition on numbers. *)
Definition in_0_100 (a : number) : Prop :=
  match a with
  | Fin q => (0 <= q /\ q <= 100)%Q
  | _ => False
  end.

(** The same number, up to the representation of the fraction. *)
Definition num_eq (a b : number) : Prop :=
  match a, b with
  | NaN, NaN | NegInf, NegInf | PosInf, PosInf => True
  | Fin x, Fin y => (x == y)%Q
  | _, _ => False
  end.

(** ** JavaScript values of a parsed JSON body *)

Inductive jsvalue : Type :=
| JSundefined
| JSnull
| JSboolean (b : bool)
| JSnumber (n : number)
| JSstring (s : string)
| JSobject.

Definition typeof (v : jsvalue) : string :=
  match v with
  | JSundefined => "undefined"
  | JSnull => "object"
  | JSboolean _ => "boolean"
  | JSnumber _ => "number"
  | JSstring _ => "string"
  | JSobject => "object"
  end.

(** [Number(v)] where [typeof v === 'number']. *)
Definition Number (v : jsvalue) : number :=
  match v with
  | JSnumber n => n
  | _ => NaN
  end.


(** ** The [$sum] accumulator

    [$sum] over the doubles of a group is computed by the database, in
    double precision and in the order the documents reach the stage.  It
    is taken as it comes, with three facts of double-precision addition:
    integers whose magnitudes add up to at most 2^53 are added without
    rounding, the sum of a single value is that value, and once +Infinity
    and -Infinity have both been added the sum is NaN. *)

Class SumOps : Type := {
  sum_doubles : list number -> number;
  sum_doubles_integers :
    forall zs : list Z,
      (fold_right Z.add 0 (map Z.abs zs) <= 2 ^ 53)%Z ->
      num_eq (sum_doubles (map num zs)) (num (fold_right Z.add 0 zs));
  sum_doubles_single : forall x, num_eq (sum_doubles [x]) x;
  sum_doubles_opposite :
    forall l, In PosInf l -> In NegInf l -> sum_doubles l = NaN
}.

(** *** Addition without rounding

    An instance of the interface: the values are added from 0 on, in
    order, with the infinities and NaN as in IEEE arithmetic and the
    finite numbers as rationals.  It is what the database computes
    whenever no addition rounds. *)

Module Exact.

Definition add_unrounded (a b : number) : number :=
  match a, b with
  | NaN, _ | _, NaN => NaN
  | PosInf, NegInf | NegInf, PosInf => NaN
  | PosInf, _ | _, PosInf => PosInf
  | NegInf, _ | _, NegInf => NegInf
  | Fin x, Fin y => Fin (x + y)
  end.

Definition sum_unrounded (l : list number) : number :=
  fold_left add_unrounded l (num 0).

#[export] Instance sums : SumOps.
Proof.
  refine {| sum_doubles := sum_unrounded |}.
  - intros zs _. unfold sum_unrounded.
    assert (H : forall a : Q,
               num_eq (fold_left add_unrounded (map num zs) (Fin a))
                      (Fin (a + inject_Z (fold_right Z.add 0 zs)))).
    { induction zs as [|z zs IH]; intros a.
      - simpl. apply Qeq_sym, Qplus_0_r.
      - simpl fold_left. simpl fold_right. specialize (IH (a + inject_Z z)%Q).
        change (add_unrounded (Fin a) (num z)) with (Fin (a + inject_Z z)).
        destruct (fold_left add_unrounded (map num zs) (Fin (a + inject_Z z)));
          simpl in *; try tauto.
        rewrite IH, inject_Z_plus, Qplus_assoc. reflexivity. }
    specialize (H (inject_Z 0)).
    change (num 0) with (Fin (inject_Z 0)).
    destruct (fold_left add_unrounded (map num zs) (Fin (inject_Z 0)));
      simpl in *; try tauto.
    rewrite H. apply Qplus_0_l.
  - intros [| |q|]; simpl; try exact I. apply Qplus_0_l.
  - assert (HNaN : forall l, fold_left add_unrounded l NaN = NaN).
    { induction l as [|x l IH]; [reflexivity | exact IH]. }
    assert (Hpos : forall l, In NegInf l -> fold_left add_unrounded l PosInf = NaN).
    { induction l as [|x l IH]; simpl; [tauto|].
      intros [-> | Hin]; [apply HNaN|].
      destruct x; simpl; auto. }
    assert (Hneg : forall l, In PosInf l -> fold_left add_unrounded l NegInf = NaN).
    { induction l as [|x l IH]; simpl; [tauto|].
      intros [-> | Hin]; [apply HNaN|].
      destruct x; simpl; auto. }
    intros l. unfold sum_unrounded. generalize (num 0).
    induction l as [|x l IH]; simpl; [tauto|].
    intros a [Hx | Hp] [Hx' | Hn]; subst; try discriminate.
    all: destruct a; try destruct x; simpl; auto.
Defined.

End Exact.

(** ** ObjectId

    The [bson] constructor and its helpers are a library interface: the
    routes use [new ObjectId(s)] (which throws on a string it rejects),
    [ObjectId.isValid(s)] and [String(oid)].  Whatever [isValid] accepts,
    the constructor accepts ([isValid] is the constructor under a try). *)

Class ObjectIdOps : Type := {
  ObjectId : Type;
  ObjectId_eq_dec :: EqDecision ObjectId;
  ObjectId_new : string -> option ObjectId;
  ObjectId_isValid : string -> bool;
  ObjectId_toString : ObjectId -> string;
  ObjectId_isValid_new :
    forall s, ObjectId_isValid s = true -> is_Some (ObjectId_new s)
}.

(** *** The 24-digit hexadecimal representation

    An instance of the interface for string arguments: a string is valid
    when it is 24 hexadecimal digits of either case, and an ObjectId
    prints as its lower-case digits. *)

Module Hex.

Definition is_hex_digit (c : ascii) : bool :=
  let n := nat_of_ascii c in
  ((48 <=? n) && (n <=? 57) || (97 <=? n) && (n <=? 102)
   || (65 <=? n) && (n <=? 70))%nat.

Definition to_lower (c : ascii) : ascii :=
  let n := nat_of_ascii c in
  if ((65 <=? n) && (n <=? 90))%nat then ascii_of_nat (n + 32) else c.

Fixpoint all_hex (s : string) : bool :=
  match s with
  | EmptyString => true
  | String c r => is_hex_digit c && all_hex r
  end.

Fixpoint lower (s : string) : string :=
  match s with
  | EmptyString => EmptyString
  | String c r => String (to_lower c) (lower r)
  end.

Definition isValid (s : string) : bool :=
  (String.length s =? 24)%nat && all_hex s.

Definition new (s : string) : option string :=
  if isValid s then Some (lower s) else None.

#[export] Instance ops : ObjectIdOps.
Proof.
  refine {| ObjectId := string;
            ObjectId_new := new;
            ObjectId_isValid := isValid;
            ObjectId_toString := fun o => o |}.
  intros s H. unfold new. rewrite H. exists (lower s). reflexivity.
Defined.

End Hex.

(** ** Documents *)

Definition time : Type := Z.

Section Model.

Context `{ops : ObjectIdOps}.
Context `{sums : SumOps}.

(** An [_id] or a reference to one: an ObjectId or a plain string. *)
Inductive id_val : Type :=
| IdOid (o : ObjectId)
| IdStr (s : string).

#[global] Instance id_val_eq_dec : EqDecision id_val.
Proof. solve_decision. Defined.

(** [String(v)] *)
Definition id_String (v : id_val) : string :=
  match v with
  | IdOid o => ObjectId_toString o
  | IdStr s => s
  end.

(** Truthiness: an object is truthy, a string unless it is empty. *)
Definition id_truthy (v : id_val) : bool :=
  match v with
  | IdOid _ => true
  | IdStr s => negb (bool_decide (s = ""))
  end.

Inductive Status : Type := Ongoing | Finished.

#[global] Instance Status_eq_dec : EqDecision Status.
Proof. solve_decision. Defined.

Record LogEntry : Type := {
  date : time;
  value : number
}.

Record UserChallenge : Type := {
  uc_id : ObjectId;
  userId : string;
  challengeId : id_val;
  status : Status;
  progress : number;
  progressLogs : list LogEntry;
  joinDate : time;
  lastUpdated : time
}.

(** A challenge; only [_id] and [participants] are read or written by the
    participation routes, the descriptive fields are carried along. *)
Record Challenge : Type := {
  ch_id : id_val;
  title : string;
  participants : Z;
  createdBy : string
}.

(** A document of one of the collections the routes only count. *)
Inductive Document : Type := Doc (fields : list (string * string)).

Record Db : Type := {
  challenges : list Challenge;
  tips : list Document;
  events : list Document;
  users : list Document;
  userChallenges : list UserChallenge
}.


Definition set_challenges (l : list Challenge) (db : Db) : Db :=
  {| challenges := l; tips := tips db; events := events db;
     users := users db; userChallenges := userChallenges db |}.

Definition set_userChallenges (l : list UserChallenge) (db : Db) : Db :=
  {| challenges := challenges db; tips := tips db; events := events db;
     users := users db; userChallenges := l |}.

(** ** Collections as lists *)

Section Collection.
Context {A : Type}.

(** First document matching the filter. *)
Fixpoint first_match (p : A -> bool) (l : list A) : option A :=
  match l with
  | [] => None
  | x :: r => if p x then Some x else first_match p r
  end.

(** Apply the update to the first document matching the filter. *)
Fixpoint update_first (p : A -> bool) (f : A -> A) (l : list A) : list A :=
  match l with
  | [] => []
  | x :: r => if p x then f x :: r else x :: update_first p f r
  end.

(** Remove the first document matching the filter. *)
Fixpoint delete_first (p : A -> bool) (l : list A) : list A :=
  match l with
  | [] => []
  | x :: r => if p x then r else x :: delete_first p r
  end.

(** All documents matching the filter, in store order. *)
Definition all_matches (p : A -> bool) (l : list A) : list A :=
  List.filter p l.

(** [matchedCount] of [updateOne], [deletedCount] of [deleteOne]. *)
Definition matched_count (p : A -> bool) (l : list A) : nat :=
  if existsb p l then 1%nat else 0%nat.
End Collection.

(** ** The handler monad *)

Inductive Exn : Type :=
| BSONError          (* new ObjectId(s) on a string it rejects *)
| DuplicateKey.      (* insertOne with an _id already in the collection *)

Inductive Collection : Type :=
| Challenges | Tips | Events | Users | UserChallenges.

(** Store operations, in the order a handler issues them. *)
Inductive DbOp : Type :=
| OpFindOne (c : Collection)
| OpFind (c : Collection)
| OpInsertOne (c : Collection)
| OpUpdateOne (c : Collection) (matchedCount : nat)
| OpDeleteOne (c : Collection) (deletedCount : nat)
| OpCountDocuments (c : Collection)
| OpAggregate (c : Collection).

Record Run (A : Type) : Type := mkRun {
  result : Exn + A;
  store : Db;
  issued : list DbOp
}.
#[global] Arguments mkRun {A}.
#[global] Arguments result {A}.
#[global] Arguments store {A}.
#[global] Arguments issued {A}.

Definition M (A : Type) : Type := Db -> Run A.

Definition ret {A} (a : A) : M A :=
  fun db => mkRun (inr a) db [].

Definition throw {A} (e : Exn) : M A :=
  fun db => mkRun (inl e) db [].

Definition bind {A B} (m : M A) (f : A -> M B) : M B :=
  fun db =>
    match m db with
    | mkRun (inl e) db' t => mkRun (inl e) db' t
    | mkRun (inr a) db' t =>
        match f a db' with
        | mkRun r db'' t' => mkRun r db'' (t ++ t')
        end
    end.

Notation "'let/await' x := m 'in' k" := (bind m (fun x => k))
  (at level 10, x name, m at level 100, k at level 200).
Notation "'await' m 'in' k" := (bind m (fun _ => k))
  (at level 10, m at level 100, k at level 200).

Fixpoint mapM {A B} (f : A -> M B) (l : list A) : M (list B) :=
  match l with
  | [] => ret []
  | x :: r => let/await y := f x in let/await ys := mapM f r in ret (y :: ys)
  end.

(** *** Filters *)

(** The filter [{ _id: ref }] on challenges. *)
Definition by_ch_id (ref : id_val) (c : Challenge) : bool :=
  bool_decide (ch_id c = ref).

(** The filter [{ _id: oid }] on enrollments. *)
Definition by_id (oid : ObjectId) (u : UserChallenge) : bool :=
  bool_decide (uc_id u = oid).

(** The filter [{ userId: email }] of ListMine. *)
Definition owned_by (email : string) (u : UserChallenge) : bool :=
  bool_decide (userId u = email).

(** The filter [{ userId: email, challengeId: ref }] of Join. *)
Definition enrolled (email : string) (ref : id_val) (u : UserChallenge) : bool :=
  bool_decide (userId u = email) && bool_decide (challengeId u = ref).

(** The filter [{ _id: ref, participants: { $gt: 0 } }] of Leave. *)
Definition joined_and_positive (ref : id_val) (c : Challenge) : bool :=
  bool_decide (ch_id c = ref) && (0 <? participants c)%Z.

(** *** Store primitives *)

Definition challenges_findOne (p : Challenge -> bool) : M (option Challenge) :=
  fun db => mkRun (inr (first_match p (challenges db))) db [OpFindOne Challenges].

Definition challenges_updateOne (p : Challenge -> bool)
    (f : Challenge -> Challenge) : M unit :=
  fun db =>
    mkRun (inr tt) (set_challenges (update_first p f (challenges db)) db)
          [OpUpdateOne Challenges (matched_count p (challenges db))].

Definition userChallenges_findOne (p : UserChallenge -> bool)
  : M (option UserChallenge) :=
  fun db =>
    mkRun (inr (first_match p (userChallenges db))) db [OpFindOne UserChallenges].

Definition userChallenges_find (p : UserChallenge -> bool)
  : M (list UserChallenge) :=
  fun db =>
    mkRun (inr (all_matches p (userChallenges db))) db [OpFind UserChallenges].

(** [insertOne(doc)]: the driver gives the document its [_id]; the
    collection rejects an [_id] it already holds. *)
Definition userChallenges_insertOne (uc : UserChallenge) : M ObjectId :=
  fun db =>
    if existsb (by_id (uc_id uc)) (userChallenges db)
    then mkRun (inl DuplicateKey) db [OpInsertOne UserChallenges]
    else mkRun (inr (uc_id uc))
               (set_userChallenges (userChallenges db ++ [uc]) db)
               [OpInsertOne UserChallenges].

Definition userChallenges_updateOne (p : UserChallenge -> bool)
    (f : UserChallenge -> UserChallenge) : M unit :=
  fun db =>
    mkRun (inr tt) (set_userChallenges (update_first p f (userChallenges db)) db)
          [OpUpdateOne UserChallenges (matched_count p (userChallenges db))].

Definition userChallenges_deleteOne (p : UserChallenge -> bool) : M unit :=
  fun db =>
    mkRun (inr tt) (set_userChallenges (delete_first p (userChallenges db)) db)
          [OpDeleteOne UserChallenges (matched_count p (userChallenges db))].

(** [new ObjectId(s)] inside a handler. *)
Definition new_ObjectId (s : string) : M ObjectId :=
  match ObjectId_new s with
  | Some o => ret o
  | None => throw BSONError
  end.

(** ** Requests and replies *)

Record Stats : Type := {
  totalChallenges : nat;
  totalTips : nat;
  totalEvents : nat;
  totalUsers : nat;
  activeParticipants : nat;
  totalPlasticReducedKg : number
}.

Inductive Body : Type :=
| Message (message : string)
| AlreadyJoined (userChallenge : UserChallenge)
| Joined (userChallengeId : ObjectId) (userChallenge : UserChallenge)
| Populated (items : list (UserChallenge * option Challenge))
| Updated (updated : option UserChallenge)
| LeftChallenge
| StatsBody (stats : Stats)
| Failure (message : string) (error : Exn).

Record Response : Type := {
  statusCode : nat;
  body : Body
}.

(** [res.status(code).json(b)] *)
Definition json (code : nat) (b : Body) : Response :=
  {| statusCode := code; body := b |}.

(** [try { m } catch (err) { res.status(500).json(...) }] *)
Definition try_catch (m : M Response) (message : string) : M Response :=
  fun db =>
    match m db with
    | mkRun (inl e) db' t => mkRun (inr (json 500 (Failure message e))) db' t
    | mkRun (inr a) db' t => mkRun (inr a) db' t
    end.

(** The reply a client sees; an exception that escaped a handler would
    reach the global error handler. *)
Definition response (r : Run Response) : Response :=
  match result r with
  | inr a => a
  | inl e => json 500 (Failure "Something went wrong" e)
  end.

(** [requireAuth]: the [x-user-email] header, absent or empty, is refused. *)
Definition requireAuth (header : option string) (next : string -> M Response)
  : M Response :=
  let userEmail := header in
  match userEmail with
  | None => ret (json 401 (Message "Unauthorized. Send x-user-email header for now."))
  | Some email =>
      if bool_decide (email = "")
      then ret (json 401 (Message "Unauthorized. Send x-user-email header for now."))
      else next email
  end.

(** The fields [PATCH .../progress] reads from the body. *)
Record ProgressBody : Type := {
  body_progress : jsvalue;
  body_addLogValue : jsvalue
}.

(** The [$set] document built by the progress route. *)
Record Updates : Type := {
  set_progress : option number;
  set_status : option Status;
  set_lastUpdated : option time
}.

Definition apply_set (u : Updates) (uc : UserChallenge) : UserChallenge :=
  {| uc_id := uc_id uc;
     userId := userId uc;
     challengeId := challengeId uc;
     status := default (status uc) (set_status u);
     progress := default (progress uc) (set_progress u);
     progressLogs := progressLogs uc;
     joinDate := joinDate uc;
     lastUpdated := default (lastUpdated uc) (set_lastUpdated u) |}.

(** [$push: { progressLogs: entry }] *)
Definition push_log (entry : LogEntry) (uc : UserChallenge) : UserChallenge :=
  {| uc_id := uc_id uc;
     userId := userId uc;
     challengeId := challengeId uc;
     status := status uc;
     progress := progress uc;
     progressLogs := progressLogs uc ++ [entry];
     joinDate := joinDate uc;
     lastUpdated := lastUpdated uc |}.

(** [$inc: { participants: n }] *)
Definition inc_participants (n : Z) (c : Challenge) : Challenge :=
  {| ch_id := ch_id c;
     title := title c;
     participants := participants c + n;
     createdBy := createdBy c |}.

(** ** The routes of api/index.js *)

(** The clamp of the progress route. *)
Definition clamp_progress (progress : number) : number :=
  Math_min (num 100) (Math_max (num 0) progress).

Definition status_of (progress : number) : Status :=
  if num_ge progress (num 100) then Finished else Ongoing.

(** [a || b] on ids. *)
Definition id_or (a b : id_val) : id_val :=
  if id_truthy a then a else b.

(** The filter Join builds from the route parameter [challengeId]: the
    ObjectId when the string is one in canonical form, the string itself
    otherwise. *)
Definition build_challengeFilter (id : string) : M id_val :=
  if ObjectId_isValid id then
    let/await o := new_ObjectId id in
    if bool_decide (ObjectId_toString o = id)
    then let/await o' := new_ObjectId id in ret (IdOid o')
    else ret (IdStr id)
  else ret (IdStr id).

(** The document Join inserts. *)
Definition new_userChallenge (insertedId : ObjectId) (userEmail : string)
    (ref : id_val) (now1 now2 : time) : UserChallenge :=
  {| uc_id := insertedId;
     userId := userEmail;
     challengeId := ref;
     status := Ongoing;
     progress := num 0;
     progressLogs := [];
     joinDate := now1;
     lastUpdated := now2 |}.

(** [POST /api/challenges/join/:id].  [now1] and [now2] are the two
    readings of the clock and [insertedId] is the [_id] the driver
    generates for the insert. *)
Definition join (now1 now2 : time) (insertedId : ObjectId)
    (header : option string) (id : string) : M Response :=
  requireAuth header (fun userEmail =>
    try_catch (
      let/await challengeFilter := build_challengeFilter id in
      let/await challenge :=
        challenges_findOne (by_ch_id challengeFilter) in
      match challenge with
      | None => ret (json 404 (Message "Challenge not found"))
      | Some challenge =>
          let ref := id_or (ch_id challenge) (IdStr id) in
          let/await exists_ :=
            userChallenges_findOne (enrolled userEmail ref) in
          match exists_ with
          | Some e => ret (json 200 (AlreadyJoined e))
          | None =>
              let uc := new_userChallenge insertedId userEmail ref now1 now2 in
              let/await insertResult := userChallenges_insertOne uc in
              await challenges_updateOne (by_ch_id ref) (inc_participants 1) in
              ret (json 201 (Joined insertResult uc))
          end
      end) "Failed to join challenge").

(** The challenge lookup of [GET /api/user-challenges/me]. *)
Definition populate (uc : UserChallenge)
  : M (UserChallenge * option Challenge) :=
  let/await ch :=
    (if id_truthy (challengeId uc)
        && ObjectId_isValid (id_String (challengeId uc))
     then
       let/await o := new_ObjectId (id_String (challengeId uc)) in
       challenges_findOne (by_ch_id (IdOid o))
     else
       challenges_findOne (by_ch_id (IdStr (id_String (challengeId uc))))) in
  ret (uc, ch).

(** [GET /api/user-challenges/me] *)
Definition listMine (header : option string) : M Response :=
  requireAuth header (fun userEmail =>
    try_catch (
      let/await ucs :=
        userChallenges_find (owned_by userEmail) in
      let/await populated := mapM populate ucs in
      ret (json 200 (Populated populated)))
    "Failed to fetch user challenges").

(** [PATCH /api/user-challenges/:id/progress].  [now1] is the clock
    reading of the log entry, [now2] the one of [lastUpdated]. *)
Definition updateProgress (now1 now2 : time) (header : option string)
    (id : string) (reqBody : ProgressBody) : M Response :=
  requireAuth header (fun userEmail =>
    try_catch (
      let progress := body_progress reqBody in
      let addLogValue := body_addLogValue reqBody in
      let/await oid := new_ObjectId id in
      let/await uc := userChallenges_findOne (by_id oid) in
      match uc with
      | None => ret (json 404 (Message "UserChallenge not found"))
      | Some uc =>
          if negb (bool_decide (userId uc = userEmail))
          then ret (json 403 (Message "Forbidden"))
          else
            let updates :=
              if bool_decide (typeof progress = "number") then
                let p := clamp_progress (Number progress) in
                {| set_progress := Some p;
                   set_status := Some (status_of p);
                   set_lastUpdated := None |}
              else
                {| set_progress := None; set_status := None;
                   set_lastUpdated := None |} in
            await (if bool_decide (typeof addLogValue = "number") then
                     let/await oid := new_ObjectId id in
                     userChallenges_updateOne (by_id oid)
                       (push_log {| date := now1; value := Number addLogValue |})
                   else ret tt) in
            let updates :=
              {| set_progress := set_progress updates;
                 set_status := set_status updates;
                 set_lastUpdated := Some now2 |} in
            let/await oid := new_ObjectId id in
            await userChallenges_updateOne (by_id oid) (apply_set updates) in
            let/await oid := new_ObjectId id in
            let/await updated := userChallenges_findOne (by_id oid) in
            ret (json 200 (Updated updated))
      end) "Failed to update progress").

(** [DELETE /api/user-challenges/:id] *)
Definition leave (header : option string) (id : string) : M Response :=
  requireAuth header (fun userEmail =>
    try_catch (
      let/await oid := new_ObjectId id in
      let/await uc := userChallenges_findOne (by_id oid) in
      match uc with
      | None => ret (json 404 (Message "Not found"))
      | Some uc =>
          if negb (bool_decide (userId uc = userEmail))
          then ret (json 403 (Message "Forbidden"))
          else
            let/await oid := new_ObjectId id in
            await userChallenges_deleteOne (by_id oid) in
            await challenges_updateOne
                    (joined_and_positive (challengeId uc))
                    (inc_participants (-1)) in
            ret (json 200 LeftChallenge)
      end) "Failed to leave challenge").

(** *** Statistics *)

Definition countDocuments (c : Collection) : M nat :=
  fun db =>
    mkRun (inr (match c with
                | Challenges => length (challenges db)
                | Tips => length (tips db)
                | Events => length (events db)
                | Users => length (users db)
                | UserChallenges => length (userChallenges db)
                end)) db [OpCountDocuments c].

Definition userChallenges_aggregate {A} (pipeline : list UserChallenge -> list A)
  : M (list A) :=
  fun db => mkRun (inr (pipeline (userChallenges db))) db [OpAggregate UserChallenges].

(** [{ $match: { status: 'Ongoing' } }] *)
Definition match_Ongoing (docs : list UserChallenge) : list UserChallenge :=
  List.filter (fun u => bool_decide (status u = Ongoing)) docs.

(** [{ $group: { _id: null, users: { $addToSet: '$userId' } } }]: a single
    group, and none at all when no document comes in. *)
Definition group_users (docs : list UserChallenge) : list (list string) :=
  match docs with
  | [] => []
  | _ => [remove_dups (map userId docs)]
  end.

(** [{ $project: { count: { $size: '$users' } } }] *)
Definition project_count (groups : list (list string)) : list nat :=
  map (@length string) groups.

(** [{ $unwind: { path: '$progressLogs', preserveNullAndEmptyArrays: false } }]:
    one document per log entry, none for an empty array. *)
Definition unwind_progressLogs (docs : list UserChallenge)
  : list (UserChallenge * LogEntry) :=
  flat_map (fun u => map (fun e => (u, e)) (progressLogs u)) docs.

(** [$toDouble] of a number. *)
Definition toDouble (v : number) : number := v.

(** [{ $group: { _id: null, totalValue: { $sum: { $toDouble: '$progressLogs.value' } } } }] *)
Definition group_totalValue (docs : list (UserChallenge * LogEntry))
  : list number :=
  match docs with
  | [] => []
  | _ => [sum_doubles (map (fun d => toDouble (value (snd d))) docs)]
  end.

(** [GET /api/stats] *)
Definition stats : M Response :=
  try_catch (
    let/await totalChallenges := countDocuments Challenges in
    let/await totalTips := countDocuments Tips in
    let/await totalEvents := countDocuments Events in
    let/await totalUsers := countDocuments Users in
    let/await uniqAgg :=
      userChallenges_aggregate
        (fun docs => project_count (group_users (match_Ongoing docs))) in
    let activeParticipants :=
      match uniqAgg with
      | [] => 0%nat
      | count :: _ => count
      end in
    let/await sumAgg :=
      userChallenges_aggregate
        (fun docs => group_totalValue (unwind_progressLogs docs)) in
    let totalPlasticReducedKg :=
      match sumAgg with
      | [] => num 0
      | totalValue :: _ => or_zero totalValue
      end in
    ret (json 200 (StatsBody
      {| totalChallenges := totalChallenges;
         totalTips := totalTips;
         totalEvents := totalEvents;
         totalUsers := totalUsers;
         activeParticipants := activeParticipants;
         totalPlasticReducedKg := totalPlasticReducedKg |})))
  "Failed to compute stats".

(** ** The routes of server.js that differ *)

(** [POST /api/challenges/join/:id] of server.js: the route parameter is
    always turned into an ObjectId. *)
Definition server_join (now1 now2 : time) (insertedId : ObjectId)
    (header : option string) (id : string) : M Response :=
  requireAuth header (fun userEmail =>
    try_catch (
      let/await oid := new_ObjectId id in
      let/await challenge := challenges_findOne (by_ch_id (IdOid oid)) in
      match challenge with
      | None => ret (json 404 (Message "Challenge not found"))
      | Some challenge =>
          let/await oid := new_ObjectId id in
          let/await exists_ :=
            userChallenges_findOne (enrolled userEmail (IdOid oid)) in
          match exists_ with
          | Some e => ret (json 200 (AlreadyJoined e))
          | None =>
              let/await oid := new_ObjectId id in
              let uc :=
                new_userChallenge insertedId userEmail (IdOid oid) now1 now2 in
              let/await insertResult := userChallenges_insertOne uc in
              let/await oid := new_ObjectId id in
              await challenges_updateOne (by_ch_id (IdOid oid))
                      (inc_participants 1) in
              ret (json 201 (Joined insertResult uc))
          end
      end) "Failed to join challenge").

(** [GET /api/user-challenges/me] of server.js: the challenge is looked up
    under the stored reference itself. *)
Definition server_populate (uc : UserChallenge)
  : M (UserChallenge * option Challenge) :=
  let/await ch :=
    challenges_findOne (by_ch_id (challengeId uc)) in
  ret (uc, ch).

Definition server_listMine (header : option string) : M Response :=
  requireAuth header (fun userEmail =>
    try_catch (
      let/await ucs :=
        userChallenges_find (owned_by userEmail) in
      let/await populated := mapM server_populate ucs in
      ret (json 200 (Populated populated)))
    "Failed to fetch user challenges").

(** ** Sequences of requests *)

Inductive Request : Type :=
| Join (now1 now2 : time) (insertedId : ObjectId)
       (header : option string) (id : string)
| ListMine (header : option string)
| UpdateProgress (now1 now2 : time) (header : option string)
                 (id : string) (reqBody : ProgressBody)
| Leave (header : option string) (id : string)
| ComputeStats.

Definition handle (r : Request) : M Response :=
  match r with
  | Join now1 now2 insertedId header id => join now1 now2 insertedId header id
  | ListMine header => listMine header
  | UpdateProgress now1 now2 header id reqBody =>
      updateProgress now1 now2 header id reqBody
  | Leave header id => leave header id
  | ComputeStats => stats
  end.

(** The store after serving the requests one after the other. *)
Fixpoint serve (rs : list Request) (db : Db) : Db :=
  match rs with
  | [] => db
  | r :: rs => serve rs (store (handle r db))
  end.

(** The replies to the requests, in order. *)
Fixpoint replies (rs : list Request) (db : Db) : list Response :=
  match rs with
  | [] => []
  | r :: rs => response (handle r db) :: replies rs (store (handle r db))
  end.

(** ** Vocabulary of the statements *)

(** The filter Join looks the challenge up under, as a value. *)
Definition filter_of (id : string) : id_val :=
  if ObjectId_isValid id then
    match ObjectId_new id with
    | Some o => if bool_decide (ObjectId_toString o = id) then IdOid o else IdStr id
    | None => IdStr id
    end
  else IdStr id.

(** The [$set] document of the progress route. *)
Definition updates_of (progress : jsvalue) (now2 : time) : Updates :=
  if bool_decide (typeof progress = "number") then
    {| set_progress := Some (clamp_progress (Number progress));
       set_status := Some (status_of (clamp_progress (Number progress)));
       set_lastUpdated := Some now2 |}
  else
    {| set_progress := None; set_status := None; set_lastUpdated := Some now2 |}.

(** The two writes of the progress route on the enrollment it names. *)
Definition progress_step (now1 now2 : time) (reqBody : ProgressBody)
    (uc : UserChallenge) : UserChallenge :=
  apply_set (updates_of (body_progress reqBody) now2)
    (if bool_decide (typeof (body_addLogValue reqBody) = "number")
     then push_log {| date := now1; value := Number (body_addLogValue reqBody) |} uc
     else uc).

(** The sum of all participants counters. *)
Definition total_participants (db : Db) : Z :=
  fold_right Z.add 0%Z (map participants (challenges db)).

(** A reply of [requireAuth]: 401, with the store untouched and not even read. *)
Definition refused (db : Db) (r : Run Response) : Prop :=
  statusCode (response r) = 401%nat /\ store r = db /\ issued r = [].

(** The participants counter stored under an [_id], if any. *)
Definition counter (db : Db) (ref : id_val) : option Z :=
  participants <$> first_match (by_ch_id ref) (challenges db).

(** The guarded decrement of Leave: by 1 above 0, not at all at 0. *)
Definition guarded_decrement (n : Z) : Z :=
  if (0 <? n)%Z then (n - 1)%Z else n.

Definition counters_nonnegative (db : Db) : Prop :=
  Forall (fun c => (0 <= participants c)%Z) (challenges db).

(** MongoDB keeps [_id] unique within a collection. *)
Definition unique_challenge_ids (db : Db) : Prop :=
  NoDup (map ch_id (challenges db)).

(** The effect of one request on the store: none; or a Join that found the
    challenge and no enrollment of the caller in it; or a progress request
    on a stored enrollment; or a Leave of a stored enrollment. *)
Inductive effect (db : Db) : Request -> Db -> Prop :=
| NoEffect r : effect db r db
| JoinEffect r now1 now2 insertedId email ch :
    first_match (by_ch_id (ch_id ch)) (challenges db) = Some ch ->
    first_match (enrolled email (ch_id ch)) (userChallenges db) = None ->
    effect db r
      (set_challenges
         (update_first (by_ch_id (ch_id ch)) (inc_participants 1) (challenges db))
         (set_userChallenges
            (userChallenges db
             ++ [new_userChallenge insertedId email (ch_id ch) now1 now2]) db))
| ProgressEffect now1 now2 header id reqBody oid uc :
    first_match (by_id oid) (userChallenges db) = Some uc ->
    effect db (UpdateProgress now1 now2 header id reqBody)
      (set_userChallenges
         (update_first (by_id oid) (progress_step now1 now2 reqBody)
                       (userChallenges db)) db)
| LeaveEffect r oid uc :
    first_match (by_id oid) (userChallenges db) = Some uc ->
    effect db r
      (set_challenges
         (update_first (joined_and_positive (challengeId uc))
                       (inc_participants (-1)) (challenges db))
         (set_userChallenges (delete_first (by_id oid) (userChallenges db)) db)).

(** The number of enrollments that reference an [_id]. *)
Definition enrollments_of (db : Db) (ref : id_val) : nat :=
  length (List.filter (fun u => bool_decide (challengeId u = ref))
                      (userChallenges db)).

(** At most one enrollment per user and challenge. *)
Definition one_per_pair (db : Db) : Prop :=
  forall email ref,
    (length (List.filter (enrolled email ref) (userChallenges db)) <= 1)%nat.

(** Every participants counter is the number of enrollments referencing
    its challenge. *)
Definition counters_consistent (db : Db) : Prop :=
  unique_challenge_ids db
  /\ Forall (fun c => participants c = Z.of_nat (enrollments_of db (ch_id c)))
            (challenges db).

(** The invariant of an enrollment's progress and status. *)
Definition progress_ok (u : UserChallenge) : Prop :=
  in_0_100 (progress u)
  /\ (status u = Finished <-> num_ge (progress u) (num 100) = true).

(** A progress request whose [progress] field is the number NaN.  No
    body parsed from JSON makes one. *)
Definition NaN_progress (r : Request) : bool :=
  match r with
  | UpdateProgress _ _ _ _ reqBody =>
      match body_progress reqBody with
      | JSnumber n => isNaN n
      | _ => false
      end
  | _ => false
  end.

(** A call of the progress route that logs the value [v]: the two clock
    readings, the [progress] field and [v]. *)
Definition log_call : Type := time * time * jsvalue * number.

Definition log_request (email id : string) (c : log_call) : Request :=
  let '(now1, now2, progress, v) := c in
  UpdateProgress now1 now2 (Some email) id
    {| body_progress := progress; body_addLogValue := JSnumber v |}.

Definition log_entry_of (c : log_call) : LogEntry :=
  let '(now1, _, _, v) := c in {| date := now1; value := v |}.

Definition call_progress (c : log_call) : jsvalue :=
  let '(_, _, progress, _) := c in progress.



(** An enrollment paired with the challenge stored under its reference. *)
Definition paired (db : Db) (u : UserChallenge) : UserChallenge * option Challenge :=
  (u, first_match (by_ch_id (challengeId u)) (challenges db)).

(** The [_id] the listing of api/index.js looks a reference up under: the
    ObjectId its string reads as when [isValid] accepts that string, the
    string otherwise. *)
Definition lookup_key (ref : id_val) : id_val :=
  if id_truthy ref && ObjectId_isValid (id_String ref) then
    match ObjectId_new (id_String ref) with
    | Some o => IdOid o
    | None => ref
    end
  else IdStr (id_String ref).

(** The references the lookup of api/index.js resolves to themselves: an
    ObjectId that prints to a string the constructor reads back as it, and
    a string that is empty or that [isValid] rejects. *)
Definition resolves_to_itself (ref : id_val) : Prop :=
  match ref with
  | IdOid o =>
      ObjectId_isValid (ObjectId_toString o) = true
      /\ ObjectId_new (ObjectId_toString o) = Some o
  | IdStr s => s = "" \/ ObjectId_isValid s = false
  end.

(** A request made by the identified owner of [u] that names the
    enrollment stored under [oid]. *)
Definition by_owner (oid : ObjectId) (u : UserChallenge)
    (header : option string) (id : string) : bool :=
  match header with
  | Some email =>
      negb (bool_decide (email = ""))
      && bool_decide (userId u = email)
      && bool_decide (ObjectId_new id = Some oid)
  | None => false
  end.

(** What a request appends to the log of [u], stored under [oid]: the
    entry of a progress request of the owner that carries a number as
    addLogValue, and nothing otherwise. *)
Definition appended (oid : ObjectId) (u : UserChallenge) (r : Request)
  : list LogEntry :=
  match r with
  | UpdateProgress now1 _ header id reqBody =>
      if by_owner oid u header id
         && bool_decide (typeof (body_addLogValue reqBody) = "number")
      then [{| date := now1; value := Number (body_addLogValue reqBody) |}]
      else []
  | _ => []
  end.

(** A progress request of the owner of [u] that carries a number as
    progress. *)
Definition sets_progress (oid : ObjectId) (u : UserChallenge) (r : Request)
  : bool :=
  match r with
  | UpdateProgress _ _ header id reqBody =>
      by_owner oid u header id
      && bool_decide (typeof (body_progress reqBody) = "number")
  | _ => false
  end.

(** A Leave of [u] by its owner. *)
Definition removes (oid : ObjectId) (u : UserChallenge) (r : Request) : bool :=
  match r with
  | Leave header id => by_owner oid u header id
  | _ => false
  end.

(** ** Challenge management

    [DELETE /api/challenges/:id] answers with a body of its own.  What
    every route replies with, the [{ message }] of a refusal and the 500 of
    a [catch], is shared by the reply types through a class; [requireAuth]
    and the [try { ... } catch] are then the same functions at every reply
    type. *)

Class Replies (R : Type) : Type := {
  (* res.status(code).json({ message }) *)
  message_reply : nat -> string -> R;
  (* res.status(500).json({ message, error: err.message }) *)
  failure_reply : string -> Exn -> R
}.

#[global] Instance Response_Replies : Replies Response := {|
  message_reply code message := json code (Message message);
  failure_reply message error := json 500 (Failure message error)
|}.

Inductive Reply : Type :=
| Refusal (code : nat) (message : string)
| Deleted (deletedCount : nat)    (* res.json({ success: true, deletedCount }) *)
| Failed (message : string) (error : Exn).

#[global] Instance Reply_Replies : Replies Reply := {|
  message_reply := Refusal;
  failure_reply := Failed
|}.

(** [requireAuth] in front of a route of any reply type. *)
Definition requireAuth_as {R} `{Replies R} (header : option string)
    (next : string -> M R) : M R :=
  let userEmail := header in
  match userEmail with
  | None =>
      ret (message_reply 401 "Unauthorized. Send x-user-email header for now.")
  | Some email =>
      if bool_decide (email = "")
      then ret (message_reply 401 "Unauthorized. Send x-user-email header for now.")
      else next email
  end.

(** [try { m } catch (err) { res.status(500).json(...) }] at any reply type. *)
Definition try_catch_as {R} `{Replies R} (m : M R) (message : string) : M R :=
  fun db =>
    match m db with
    | mkRun (inl e) db' t => mkRun (inr (failure_reply message e)) db' t
    | mkRun (inr a) db' t => mkRun (inr a) db' t
    end.

(** [deleteOne(filter)] on challenges; its value is the [deletedCount]. *)
Definition challenges_deleteOne (p : Challenge -> bool) : M nat :=
  fun db =>
    mkRun (inr (matched_count p (challenges db)))
          (set_challenges (delete_first p (challenges db)) db)
          [OpDeleteOne Challenges (matched_count p (challenges db))].

(** [DELETE /api/challenges/:id] of api/index.js: owner only.  The filter
    is built as in Join. *)
Definition deleteChallenge (header : option string) (id : string) : M Reply :=
  requireAuth_as header (fun userEmail =>
    try_catch_as (
      let/await filter := build_challengeFilter id in
      let/await existing := challenges_findOne (by_ch_id filter) in
      match existing with
      | None => ret (message_reply 404 "Challenge not found")
      | Some existing =>
          if negb (bool_decide (createdBy existing = userEmail))
          then ret (message_reply 403 "Forbidden: only owner can delete")
          else
            let/await deletedCount := challenges_deleteOne (by_ch_id filter) in
            ret (Deleted deletedCount)
      end) "Failed to delete challenge").

(** [DELETE /api/challenges/:id] of server.js: the route parameter is
    always turned into an ObjectId. *)
Definition server_deleteChallenge (header : option string) (id : string)
  : M Reply :=
  requireAuth_as header (fun userEmail =>
    try_catch_as (
      let/await oid := new_ObjectId id in
      let filter := IdOid oid in
      let/await existing := challenges_findOne (by_ch_id filter) in
      match existing with
      | None => ret (message_reply 404 "Challenge not found")
      | Some existing =>
          if negb (bool_decide (createdBy existing = userEmail))
          then ret (message_reply 403 "Forbidden: only owner can delete")
          else
            let/await deletedCount := challenges_deleteOne (by_ch_id filter) in
            ret (Deleted deletedCount)
      end) "Failed to delete challenge").

(** Participation requests and challenge deletions, served one after the
    other. *)
Inductive Operation : Type :=
| Participation (r : Request)
| DeleteChallenge (header : option string) (id : string).

Definition perform (o : Operation) (db : Db) : Db :=
  match o with
  | Participation r => store (handle r db)
  | DeleteChallenge header id => store (deleteChallenge header id db)
  end.

Fixpoint perform_all (os : list Operation) (db : Db) : Db :=
  match os with
  | [] => db
  | o :: os => perform_all os (perform o db)
  end.

End Model.

(** ** The Express application of api/index.js

    Express keeps the middleware and routes of an application in one
    stack, in the order of the [app.use] and [app.get/post/...] calls that
    registered them, and hands a request to the layers of the stack from
    the first on: a layer that does not match is skipped, a layer that
    answers ends the walk, [next()] goes on with the layer after it and
    [next(err)] with the next error handler.  The module registers
    [cors()], [express.json()], the health check, the middleware that
    attaches the API routes, the catch-all 404 handler and the error
    handler when it is loaded; [attachRoutes] registers the API routes when
    the first request runs that middleware.

    [cors()], [express.json()] and the path matching of Express are taken
    as they come, through a class. *)

Inductive Method : Type := GET | HEAD | POST | PUT | PATCH | DELETE | OPTIONS.

#[global] Instance Method_eq_dec : EqDecision Method.
Proof. solve_decision. Defined.

(** The route handlers of the file. *)
Inductive Endpoint : Type :=
| Health
| ChallengesList | ChallengeGet | ChallengeCreate | ChallengeUpdate
| ChallengeDelete | ChallengeJoin
| UserChallengesMine | UserChallengeProgress | UserChallengeLeave
| TipsList | TipGet | TipCreate | TipUpvote | TipDelete
| EventsList | EventGet | EventCreate
| UserCreate | UsersList | UserGet | UserUpdate
| StatsGet.

Inductive Layer : Type :=
| Cors                                              (* app.use(cors()) *)
| BodyParser                                        (* app.use(express.json()) *)
| Route (m : Method) (path : string) (e : Endpoint) (* app.get(path, ...) etc. *)
| AttachRoutes      (* app.use(async (req, res, next) => { await attachRoutes() ... }) *)
| NotFound          (* app.use((req, res) => res.status(404)...) *)
| ErrorHandler.     (* app.use((err, req, res, next) => ...) *)

(** What a library middleware does with a request. *)
Inductive Outcome : Type :=
| CallNext                        (* next() *)
| CallNextError                   (* next(err) *)
| EndResponse (status : nat).     (* it answers the request itself *)

Class ExpressOps : Type := {
  HttpRequest : Type;
  cors : HttpRequest -> Outcome;
  express_json : HttpRequest -> Outcome;
  (* whether the route registered for the method and path takes the request *)
  route_matches : Method -> string -> HttpRequest -> bool
}.

(** A [MongoClient], by the order of creation, and [client.db('ecoTrackDB')]. *)
Definition MongoClient : Type := nat.

Inductive MongoDb : Type := client_db (client : MongoClient).

(** The state of the module: the stack of the application, the flag
    [app.locals._routesAttached], the module variables [cachedClient] and
    [cachedDb] and the two fields of [global]. *)
Record App : Type := {
  stack : list Layer;
  routesAttached : bool;
  cachedClient : option MongoClient;
  cachedDb : option MongoDb;
  global_mongoClient : option MongoClient;
  global_mongoDb : option MongoDb
}.

(** The stack once the module is loaded.  The two layers Express puts in
    front of every application pass each request on and are left out. *)
Definition loaded_stack : list Layer :=
  [Cors; BodyParser; Route GET "/" Health; AttachRoutes; NotFound; ErrorHandler].

(** Loading the module in a process whose [global] holds the two fields
    (or not): [cachedClient = global._mongoClient || null], and likewise
    [cachedDb]. *)
Definition load (mongoClient : option MongoClient) (mongoDb : option MongoDb)
  : App :=
  {| stack := loaded_stack;
     routesAttached := false;
     cachedClient := mongoClient;
     cachedDb := mongoDb;
     global_mongoClient := mongoClient;
     global_mongoDb := mongoDb |}.

(** The routes [attachRoutes] registers, in order. *)
Definition api_routes : list Layer :=
  [ Route GET "/api/challenges" ChallengesList;
    Route GET "/api/challenges/:id" ChallengeGet;
    Route POST "/api/challenges" ChallengeCreate;
    Route PATCH "/api/challenges/:id" ChallengeUpdate;
    Route DELETE "/api/challenges/:id" ChallengeDelete;
    Route POST "/api/challenges/join/:id" ChallengeJoin;
    Route GET "/api/user-challenges/me" UserChallengesMine;
    Route PATCH "/api/user-challenges/:id/progress" UserChallengeProgress;
    Route DELETE "/api/user-challenges/:id" UserChallengeLeave;
    Route GET "/api/tips" TipsList;
    Route GET "/api/tips/:id" TipGet;
    Route POST "/api/tips" TipCreate;
    Route PATCH "/api/tips/:id/upvote" TipUpvote;
    Route DELETE "/api/tips/:id" TipDelete;
    Route GET "/api/events" EventsList;
    Route GET "/api/events/:id" EventGet;
    Route POST "/api/events" EventCreate;
    Route POST "/api/users" UserCreate;
    Route GET "/api/users" UsersList;
    Route GET "/api/users/:email" UserGet;
    Route PATCH "/api/users/:email" UserUpdate;
    Route GET "/api/stats" StatsGet ].

(** [getDb()].  [connect] is what [new MongoClient(...)] and
    [await client.connect()] give when they are reached: the client, or
    nothing when the connection is refused and the call throws. *)
Definition getDb (connect : option MongoClient) (app : App)
  : option (MongoClient * MongoDb) * App :=
  match cachedClient app, cachedDb app with
  | Some client, Some db => (Some (client, db), app)
  | _, _ =>
      match connect with
      | None => (None, app)
      | Some client =>
          let db := client_db client in
          (Some (client, db),
           {| stack := stack app;
              routesAttached := routesAttached app;
              cachedClient := Some client;
              cachedDb := Some db;
              global_mongoClient := Some client;
              global_mongoDb := Some db |})
      end
  end.

Definition set_routesAttached (b : bool) (app : App) : App :=
  {| stack := stack app;
     routesAttached := b;
     cachedClient := cachedClient app;
     cachedDb := cachedDb app;
     global_mongoClient := global_mongoClient app;
     global_mongoDb := global_mongoDb app |}.

(** [app.get(...)], [app.post(...)], ...: each call pushes a layer on the
    stack. *)
Definition register (layers : list Layer) (app : App) : App :=
  {| stack := stack app ++ layers;
     routesAttached := routesAttached app;
     cachedClient := cachedClient app;
     cachedDb := cachedDb app;
     global_mongoClient := global_mongoClient app;
     global_mongoDb := global_mongoDb app |}.

(** [attachRoutes()]; nothing stands for the exception of [getDb]. *)
Definition attachRoutes (connect : option MongoClient) (app : App)
  : option unit * App :=
  if routesAttached app then (Some tt, app)
  else
    let app := set_routesAttached true app in
    match getDb connect app with
    | (None, app) => (None, app)
    | (Some _, app) => (Some tt, register api_routes app)
    end.

(** How a request ends. *)
Inductive Answer : Type :=
| Sent (status : nat) (message : string)  (* a reply of the file's own middleware *)
| Ended (status : nat)                    (* a library middleware answered *)
| Served (e : Endpoint)                   (* the handlers of a route take the request *)
| Unanswered (err : bool).                (* the end of the stack *)

Section Application.

Context `{express : ExpressOps}.

(** The walk of a request through the stack from the layer at [idx] on,
    with an error pending or not.  The stack is read when a layer is
    reached, so the layers a middleware registers are in the walk of the
    request that made it register them. *)
Fixpoint next (fuel : nat) (connect : option MongoClient) (req : HttpRequest)
    (idx : nat) (err : bool) (app : App) : option (Answer * App) :=
  match fuel with
  | O => None
  | S fuel =>
      match nth_error (stack app) idx with
      | None => Some (Unanswered err, app)
      | Some layer =>
          if err then
            match layer with
            | ErrorHandler => Some (Sent 500 "Something went wrong", app)
            | _ => next fuel connect req (S idx) true app
            end
          else
            match layer with
            | Cors =>
                match cors req with
                | CallNext => next fuel connect req (S idx) false app
                | CallNextError => next fuel connect req (S idx) true app
                | EndResponse status => Some (Ended status, app)
                end
            | BodyParser =>
                match express_json req with
                | CallNext => next fuel connect req (S idx) false app
                | CallNextError => next fuel connect req (S idx) true app
                | EndResponse status => Some (Ended status, app)
                end
            | Route m path e =>
                if route_matches m path req then Some (Served e, app)
                else next fuel connect req (S idx) false app
            | AttachRoutes =>
                match attachRoutes connect app with
                | (Some _, app) => next fuel connect req (S idx) false app
                | (None, app) => Some (Sent 500 "Server startup error", app)
                end
            | NotFound => Some (Sent 404 "Route not found", app)
            | ErrorHandler => next fuel connect req (S idx) false app
            end
      end
  end.

(** One request: the walk starts at the first layer, with steps enough for
    the stack and the routes that may join it. *)
Definition dispatch (connect : option MongoClient) (req : HttpRequest)
    (app : App) : option (Answer * App) :=
  next (S (length (stack app) + length api_routes)) connect req 0 false app.

(** The state after a sequence of requests, each with what a connection
    attempt made while it is served would give. *)
Fixpoint serve_requests (rs : list (option MongoClient * HttpRequest))
    (app : App) : App :=
  match rs with
  | [] => app
  | (connect, req) :: rs =>
      serve_requests rs
        match dispatch connect req app with
        | Some (_, app') => app'
        | None => app
        end
  end.

(** *** The application of server.js

    server.js registers [cors()], [express.json()] and the health check
    when it is loaded and has no catch-all handler; [run()] registers the
    API routes once [client.connect()] has resolved. *)

Definition server_loaded_stack : list Layer :=
  [Cors; BodyParser; Route GET "/" Health].

Definition server_load : App :=
  {| stack := server_loaded_stack;
     routesAttached := false;
     cachedClient := None;
     cachedDb := None;
     global_mongoClient := None;
     global_mongoDb := None |}.

(** The routes [run()] registers, in order. *)
Definition server_routes : list Layer :=
  [ Route GET "/api/challenges" ChallengesList;
    Route GET "/api/challenges/:id" ChallengeGet;
    Route POST "/api/challenges" ChallengeCreate;
    Route PATCH "/api/challenges/:id" ChallengeUpdate;
    Route DELETE "/api/challenges/:id" ChallengeDelete;
    Route POST "/api/challenges/join/:id" ChallengeJoin;
    Route GET "/api/user-challenges/me" UserChallengesMine;
    Route PATCH "/api/user-challenges/:id/progress" UserChallengeProgress;
    Route DELETE "/api/user-challenges/:id" UserChallengeLeave;
    Route GET "/api/tips" TipsList;
    Route GET "/api/tips/:id" TipGet;
    Route GET "/api/events" EventsList;
    Route GET "/api/events/:id" EventGet;
    Route POST "/api/users" UserCreate;
    Route GET "/api/users" UsersList;
    Route GET "/api/users/:email" UserGet;
    Route PATCH "/api/users/:email" UserUpdate;
    Route GET "/api/stats" StatsGet ].

(** [run()]: the routes are registered when [await client.connect()]
    resolves; when it rejects, [run] throws before registering any. *)
Definition run (connected : bool) (app : App) : App :=
  if connected then register server_routes app else app.

(** The handler of the first route among the layers that takes the
    request. *)
Fixpoint first_route (req : HttpRequest) (layers : list Layer)
  : option Endpoint :=
  match layers with
  | [] => None
  | Route m path e :: layers =>
      if route_matches m path req then Some e else first_route req layers
  | _ :: layers => first_route req layers
  end.

(** The stacks the application can have. *)
Definition attached_or_not (app : App) : Prop :=
  stack app = loaded_stack
  \/ (routesAttached app = true /\ stack app = loaded_stack ++ api_routes).

End Application.

(** ** Example stores

    Stores over the hexadecimal ObjectIds, used to run the routes. *)

Module Example.

Definition alice : string := "alice@example.com".
Definition bob : string := "bob@example.com".

(** A challenge created through the API: its [_id] is an ObjectId. *)
Definition plastic_id : string := "64b7f0c2a1d3e4f5a6b7c8d9".

Definition plastic_ref : @id_val Hex.ops := @IdOid Hex.ops plastic_id.

Definition plastic : @Challenge Hex.ops :=
  {| ch_id := plastic_ref;
     title := "Plastic-free July";
     participants := 0;
     createdBy := bob |}.

(** A challenge imported with a string [_id] of 24 upper-case digits. *)
Definition seeded_id : string := "AAAAAAAAAAAAAAAAAAAAAAAA".

Definition seeded_ref : @id_val Hex.ops := IdStr seeded_id.

Definition seeded : @Challenge Hex.ops :=
  {| ch_id := seeded_ref;
     title := "Bike to work";
     participants := 0;
     createdBy := bob |}.

Definition db0 : @Db Hex.ops :=
  {| challenges := [plastic; seeded];
     tips := []; events := []; users := [];
     userChallenges := [] |}.

Definition uc1_id : @ObjectId Hex.ops := "0000000000000000000000a1".
Definition uc2_id : @ObjectId Hex.ops := "0000000000000000000000a2".
Definition uc3_id : @ObjectId Hex.ops := "0000000000000000000000a3".

(** Alice's enrollment in [plastic], as Join creates it at times 10, 11. *)
Definition uc1 : @UserChallenge Hex.ops :=
  new_userChallenge uc1_id alice plastic_ref 10 11.

(** The store after that Join. *)
Definition db1 : @Db Hex.ops :=
  {| challenges := [inc_participants 1 plastic; seeded];
     tips := []; events := []; users := [];
     userChallenges := [uc1] |}.

(** Alice's enrollment is there, its challenge is gone. *)
Definition db_orphan : @Db Hex.ops :=
  {| challenges := [seeded];
     tips := []; events := []; users := [];
     userChallenges := [uc1] |}.

Definition entry (v : Z) : LogEntry := {| date := 0; value := num v |}.



Definition only_progress (x : number) : ProgressBody :=
  {| body_progress := JSnumber x; body_addLogValue := JSundefined |}.

Definition only_log (x : number) : ProgressBody :=
  {| body_progress := JSundefined; body_addLogValue := JSnumber x |}.

(** Alice's enrollment in [seeded], as Join creates it at times 10, 11,
    and the store after that Join. *)
Definition uc_seeded : @UserChallenge Hex.ops :=
  new_userChallenge uc1_id alice seeded_ref 10 11.

Definition db_seeded : @Db Hex.ops :=
  {| challenges := [plastic; inc_participants 1 seeded];
     tips := []; events := []; users := [];
     userChallenges := [uc_seeded] |}.



(** Alice and Bob are enrolled in [plastic], whose counter is at 0; the
    counter of the other challenge is negative. *)
Definition uc_bob : @UserChallenge Hex.ops :=
  new_userChallenge uc2_id bob plastic_ref 20 21.

Definition db_mixed : @Db Hex.ops :=
  {| challenges := [plastic; inc_participants (-3) seeded];
     tips := []; events := []; users := [];
     userChallenges := [uc1; uc_bob] |}.

(** A router that takes a request when method and path are those of the
    route, letter for letter; [cors()] answers the OPTIONS requests and
    [express.json()] lets every request through. *)
#[export] Instance literal_router : ExpressOps := {|
  HttpRequest := Method * string;
  cors := fun req =>
    match fst req with
    | OPTIONS => EndResponse 204
    | _ => CallNext
    end;
  express_json := fun _ => CallNext;
  route_matches := fun m path req =>
    bool_decide (fst req = m) && bool_decide (snd req = path)
|}.

(** The request for the statistics. *)
Definition stats_request : @HttpRequest literal_router := (GET, "/api/stats").

End Example.

(** * Properties *)

(** ** Numbers *)

Lemma num_lt_Fin x y : num_lt (Fin x) (Fin y) = true <-> (x < y)%Q.
Proof.
  cbn. rewrite negb_true_iff, <- not_true_iff_false, Qle_bool_iff.
  split; [apply Qnot_le_lt | apply Qlt_not_le].
Qed.

Lemma num_le_Fin x y : num_le (Fin x) (Fin y) = true <-> (x <= y)%Q.
Proof. apply Qle_bool_iff. Qed.

Lemma clamp_Fin q :
  clamp_progress (Fin q) =
  if num_lt (num 0) (Fin q)
  then if num_lt (Fin q) (num 100) then Fin q else num 100
  else num 0.
Proof.
  unfold clamp_progress, Math_max, Math_min, num.
  destruct (num_lt (Fin (inject_Z 0)) (Fin q)); reflexivity.
Qed.

Ltac q_arith :=
  first [ solve [vm_compute; intuition discriminate]
        | unfold in_0_100, num, inject_Z, Qle, Qlt in *; cbn in *; lia ].

(** The clamp of a number other than NaN lies in [0,100]. *)
Lemma clamp_in_range x : isNaN x = false -> in_0_100 (clamp_progress x).
Proof.
  destruct x as [| |q|]; cbn [isNaN]; try discriminate; intros _.
  - q_arith.
  - rewrite clamp_Fin.
    destruct (num_lt (num 0) (Fin q)) eqn:H0; [|q_arith].
    destruct (num_lt (Fin q) (num 100)) eqn:H1; [|q_arith].
    apply num_lt_Fin in H0, H1. q_arith.
  - q_arith.
Qed.

(** Below 0 the clamp is 0, above 100 it is 100, in between the number. *)
Lemma clamp_cases x :
  isNaN x = false ->
  (num_le x (num 0) = true -> clamp_progress x = num 0)
  /\ (num_le (num 100) x = true -> clamp_progress x = num 100)
  /\ (num_lt (num 0) x = true -> num_lt x (num 100) = true ->
      clamp_progress x = x).
Proof.
  destruct x as [| |q|]; cbn [isNaN]; try discriminate; intros _.
  - repeat split; intros; try reflexivity; discriminate.
  - rewrite clamp_Fin. repeat split.
    + intros H. apply num_le_Fin in H.
      destruct (num_lt (num 0) (Fin q)) eqn:H0; [|reflexivity].
      apply num_lt_Fin in H0. q_arith.
    + intros H. apply num_le_Fin in H.
      destruct (num_lt (num 0) (Fin q)) eqn:H0.
      * destruct (num_lt (Fin q) (num 100)) eqn:H1; [|reflexivity].
        apply num_lt_Fin in H1. q_arith.
      * apply not_true_iff_false in H0. exfalso. apply H0, num_lt_Fin.
        q_arith.
    + intros -> ->. reflexivity.
  - repeat split; intros; try reflexivity; discriminate.
Qed.

Lemma status_of_Finished p :
  status_of p = Finished <-> num_ge p (num 100) = true.
Proof.
  unfold status_of. destruct (num_ge p (num 100)); split; congruence.
Qed.


(** ** Collections *)

Section CollectionFacts.
Context {A : Type}.
Implicit Types (p : A -> bool) (f : A -> A) (l : list A).

Lemma first_match_Some p l x :
  first_match p l = Some x -> In x l /\ p x = true.
Proof.
  induction l as [|y l IH]; simpl; [discriminate|].
  destruct (p y) eqn:E.
  - intros [= ->]. auto.
  - intros H. destruct (IH H). auto.
Qed.

Lemma first_match_None p l :
  first_match p l = None <-> existsb p l = false.
Proof.
  induction l as [|y l IH]; simpl; [tauto|].
  destruct (p y); simpl; [split; discriminate | exact IH].
Qed.

Lemma first_match_None_In p l x :
  first_match p l = None -> In x l -> p x = false.
Proof.
  induction l as [|y l IH]; simpl; [tauto|].
  destruct (p y) eqn:E; [discriminate|].
  intros H [<- | Hin]; auto.
Qed.

Lemma first_match_app_None p l x :
  first_match p l = None -> first_match p (l ++ [x]) = (if p x then Some x else None).
Proof.
  induction l as [|y l IH]; simpl; [reflexivity|].
  destruct (p y); [discriminate | exact IH].
Qed.

Lemma update_first_None p f l :
  first_match p l = None -> update_first p f l = l.
Proof.
  induction l as [|y l IH]; simpl; [reflexivity|].
  destruct (p y); [discriminate|]. intros H. now rewrite IH.
Qed.

(** An update that keeps a document under the filter [q] it was found
    by is seen by the next lookup under [q]. *)
Lemma first_match_update_first p q f l x :
  first_match p l = Some x ->
  (forall y, In y l -> q y = p y) ->
  q (f x) = true ->
  first_match q (update_first p f l) = Some (f x).
Proof.
  induction l as [|y l IH]; simpl; [discriminate|].
  intros H Hq Hf. destruct (p y) eqn:E.
  - injection H as ->. simpl. now rewrite Hf.
  - simpl. rewrite (Hq y) by auto. rewrite E. apply IH; auto.
Qed.

Lemma Forall_update_first (P : A -> Prop) p f l :
  Forall P l -> (forall x, P x -> p x = true -> P (f x)) ->
  Forall P (update_first p f l).
Proof.
  intros H Hf. induction H as [|y l Hy Hl IH]; simpl; [constructor|].
  destruct (p y) eqn:E; constructor; auto.
Qed.

Lemma Forall_delete_first (P : A -> Prop) p l :
  Forall P l -> Forall P (delete_first p l).
Proof.
  intros H. induction H as [|y l Hy Hl IH]; simpl; [constructor|].
  destruct (p y); [assumption | constructor; auto].
Qed.

(** [deleteOne] takes out the first match and nothing else. *)
Lemma delete_first_split p l x :
  first_match p l = Some x ->
  exists l1 l2, l = l1 ++ x :: l2 /\ delete_first p l = l1 ++ l2
                /\ first_match p l1 = None.
Proof.
  induction l as [|y l IH]; simpl; [discriminate|].
  destruct (p y) eqn:E.
  - intros [= ->]. exists [], l. auto.
  - intros H. destruct (IH H) as (l1 & l2 & -> & -> & Hn).
    exists (y :: l1), l2. simpl. rewrite E. auto.
Qed.

Lemma In_update_first p f l y :
  In y (update_first p f l) -> In y l \/ exists x, In x l /\ y = f x.
Proof.
  induction l as [|x l IH]; simpl; [tauto|].
  destruct (p x); simpl.
  - intros [<- | H]; eauto.
  - intros [<- | H]; [auto|]. destruct (IH H) as [|(z & Hz & ->)]; eauto.
Qed.

Lemma In_delete_first p l y : In y (delete_first p l) -> In y l.
Proof.
  induction l as [|x l IH]; simpl; [tauto|].
  destruct (p x); simpl; [auto|]. intros [<- | H]; auto.
Qed.

Lemma matched_count_first_match p l :
  matched_count p l = match first_match p l with Some _ => 1%nat | None => 0%nat end.
Proof.
  unfold matched_count. destruct (first_match p l) eqn:E.
  - destruct (existsb p l) eqn:E'; [reflexivity|].
    apply first_match_None in E'. congruence.
  - apply first_match_None in E. now rewrite E.
Qed.
End CollectionFacts.

Section Properties.

Context `{ops : ObjectIdOps}.
Context `{sums : SumOps}.

(** ** Running a handler *)

Ltac unfold_monad :=
  unfold bind, ret, throw, new_ObjectId, challenges_findOne,
    challenges_updateOne, userChallenges_findOne, userChallenges_find,
    userChallenges_insertOne, userChallenges_updateOne,
    userChallenges_deleteOne, countDocuments, userChallenges_aggregate.

Lemma challengeFilter_run id db :
  build_challengeFilter id db = mkRun (inr (filter_of id)) db [].
Proof.
  unfold build_challengeFilter, filter_of.
  destruct (ObjectId_isValid id) eqn:V; [|reflexivity].
  destruct (ObjectId_isValid_new id V) as [o Ho].
  unfold_monad. rewrite Ho. cbn.
  destruct (bool_decide (ObjectId_toString o = id)); reflexivity.
Qed.

(** [challenge._id || challengeId] is the [_id] of the challenge found. *)
Lemma id_or_found id (c : Challenge) :
  bool_decide (ch_id c = filter_of id) = true ->
  id_or (ch_id c) (IdStr id) = ch_id c.
Proof.
  intros H. apply bool_decide_eq_true in H.
  unfold id_or. destruct (ch_id c) as [o|s] eqn:E; cbn; [reflexivity|].
  case_bool_decide as Hs; cbn; [|reflexivity].
  subst s. revert H. unfold filter_of.
  repeat (case_match; try discriminate); congruence.
Qed.

Lemma bind_run {A B} (m : M A) (f : A -> M B) db a db' t :
  m db = mkRun (inr a) db' t ->
  bind m f db =
  match f a db' with
  | mkRun r db'' t' => mkRun r db'' (t ++ t')
  end.
Proof. intros H. unfold bind. now rewrite H. Qed.

Lemma requireAuth_Some email next db :
  email <> "" -> requireAuth (Some email) next db = next email db.
Proof.
  intros H. unfold requireAuth. now rewrite bool_decide_false.
Qed.

(** *** Join, as a function of the two lookups *)

Lemma join_run now1 now2 insertedId email id db :
  email <> "" ->
  join now1 now2 insertedId (Some email) id db =
  match first_match (by_ch_id (filter_of id)) (challenges db) with
  | None =>
      mkRun (inr (json 404 (Message "Challenge not found"))) db
            [OpFindOne Challenges]
  | Some ch =>
      match first_match (enrolled email (ch_id ch)) (userChallenges db) with
      | Some e =>
          mkRun (inr (json 200 (AlreadyJoined e))) db
                [OpFindOne Challenges; OpFindOne UserChallenges]
      | None =>
          let uc := new_userChallenge insertedId email (ch_id ch) now1 now2 in
          if existsb (by_id insertedId) (userChallenges db)
          then mkRun (inr (json 500 (Failure "Failed to join challenge" DuplicateKey)))
                     db
                     [OpFindOne Challenges; OpFindOne UserChallenges;
                      OpInsertOne UserChallenges]
          else mkRun (inr (json 201 (Joined insertedId uc)))
                     (set_challenges
                        (update_first (by_ch_id (ch_id ch))
                                      (inc_participants 1) (challenges db))
                        (set_userChallenges (userChallenges db ++ [uc]) db))
                     [OpFindOne Challenges; OpFindOne UserChallenges;
                      OpInsertOne UserChallenges; OpUpdateOne Challenges 1]
      end
  end.
Proof.
  intros Hemail. unfold join. rewrite requireAuth_Some by assumption.
  unfold try_catch. erewrite bind_run by apply challengeFilter_run.
  unfold_monad. cbn.
  destruct (first_match _ (challenges db)) as [ch|] eqn:Hch; cbn; [|reflexivity].
  destruct (first_match_Some _ _ _ Hch) as [_ Hid].
  rewrite (id_or_found _ _ Hid).
  destruct (first_match _ (userChallenges db)) as [e|] eqn:He; cbn; [reflexivity|].
  destruct (existsb _ (userChallenges db)) eqn:Hdup; cbn; [reflexivity|].
  rewrite matched_count_first_match.
  apply bool_decide_eq_true in Hid. rewrite Hid, Hch. reflexivity.
Qed.

Lemma update_first_twice {A} (p : A -> bool) (f g : A -> A) l :
  (forall x, p x = true -> p (f x) = true) ->
  update_first p g (update_first p f l) = update_first p (fun x => g (f x)) l.
Proof.
  intros Hp. induction l as [|y l IH]; simpl; [reflexivity|].
  destruct (p y) eqn:E; simpl.
  - now rewrite (Hp y E).
  - now rewrite E, IH.
Qed.

(** *** UpdateProgress, as a function of the lookup *)

Lemma updateProgress_run now1 now2 email id reqBody db :
  email <> "" ->
  updateProgress now1 now2 (Some email) id reqBody db =
  match ObjectId_new id with
  | None =>
      mkRun (inr (json 500 (Failure "Failed to update progress" BSONError))) db []
  | Some oid =>
      match first_match (by_id oid) (userChallenges db) with
      | None =>
          mkRun (inr (json 404 (Message "UserChallenge not found"))) db
                [OpFindOne UserChallenges]
      | Some uc =>
          if bool_decide (userId uc = email) then
            mkRun (inr (json 200 (Updated (Some (progress_step now1 now2 reqBody uc)))))
                  (set_userChallenges
                     (update_first (by_id oid) (progress_step now1 now2 reqBody)
                                   (userChallenges db)) db)
                  (OpFindOne UserChallenges
                   :: (if bool_decide (typeof (body_addLogValue reqBody) = "number")
                       then [OpUpdateOne UserChallenges 1] else [])
                   ++ [OpUpdateOne UserChallenges 1; OpFindOne UserChallenges])
          else
            mkRun (inr (json 403 (Message "Forbidden"))) db
                  [OpFindOne UserChallenges]
      end
  end.
Proof.
  intros Hemail. unfold updateProgress. rewrite requireAuth_Some by assumption.
  unfold try_catch. unfold_monad.
  destruct (ObjectId_new id) as [oid|] eqn:Hnew; cbn; [|reflexivity].
  fold (by_id oid).
  destruct (first_match (by_id oid) (userChallenges db)) as [uc|] eqn:Huc; cbn;
    [|reflexivity].
  destruct (bool_decide (userId uc = email)) eqn:Hown; cbn; [|reflexivity].
  destruct (first_match_Some _ _ _ Huc) as [_ Hid].
  assert (Hkeep : forall f : UserChallenge -> UserChallenge,
             (forall u, uc_id (f u) = uc_id u) ->
             forall u, by_id oid u = true -> by_id oid (f u) = true).
  { intros f Hf u. unfold by_id. now rewrite Hf. }
  unfold progress_step, updates_of.
  destruct (bool_decide (typeof (body_addLogValue reqBody) = "number")) eqn:Hlog;
    destruct (bool_decide (typeof (body_progress reqBody) = "number")) eqn:Hp;
    cbn; rewrite ?Hnew; cbn; fold (by_id oid);
    rewrite ?matched_count_first_match, ?update_first_twice by (apply Hkeep; reflexivity);
    rewrite ?Huc;
    try (erewrite (first_match_update_first (by_id oid) (by_id oid))
           by (first [eassumption | reflexivity | apply Hkeep; [reflexivity|assumption]]));
    try (erewrite (first_match_update_first (by_id oid) (by_id oid) (push_log _))
           by (first [eassumption | reflexivity | apply Hkeep; [reflexivity|assumption]]));
    reflexivity.
Qed.

(** *** Leave, as a function of the lookup *)

Lemma leave_run email id db :
  email <> "" ->
  leave (Some email) id db =
  match ObjectId_new id with
  | None =>
      mkRun (inr (json 500 (Failure "Failed to leave challenge" BSONError))) db []
  | Some oid =>
      match first_match (by_id oid) (userChallenges db) with
      | None =>
          mkRun (inr (json 404 (Message "Not found"))) db [OpFindOne UserChallenges]
      | Some uc =>
          if bool_decide (userId uc = email) then
            mkRun (inr (json 200 LeftChallenge))
                  (set_challenges
                     (update_first (joined_and_positive (challengeId uc))
                                   (inc_participants (-1)) (challenges db))
                     (set_userChallenges
                        (delete_first (by_id oid) (userChallenges db)) db))
                  [OpFindOne UserChallenges; OpDeleteOne UserChallenges 1;
                   OpUpdateOne Challenges
                     (matched_count (joined_and_positive (challengeId uc))
                                    (challenges db))]
          else
            mkRun (inr (json 403 (Message "Forbidden"))) db
                  [OpFindOne UserChallenges]
      end
  end.
Proof.
  intros Hemail. unfold leave. rewrite requireAuth_Some by assumption.
  unfold try_catch. unfold_monad.
  destruct (ObjectId_new id) as [oid|] eqn:Hnew; cbn; [|reflexivity].
  fold (by_id oid).
  destruct (first_match (by_id oid) (userChallenges db)) as [uc|] eqn:Huc; cbn;
    [|reflexivity].
  destruct (bool_decide (userId uc = email)) eqn:Hown; cbn; [|reflexivity].
  rewrite ?Hnew. cbn. fold (by_id oid).
  rewrite (matched_count_first_match (by_id oid)), Huc. reflexivity.
Qed.

(** ** Identity *)

(** C9: Join, UpdateProgress, Leave and ListMine (and the server.js copies
    of Join and ListMine) called without the x-user-email header reply 401
    Unauthorized; the store is left as it was and no store operation at
    all is issued, so the refusal comes before any lookup or write. *)
Theorem no_identity_no_store_access now1 now2 insertedId id reqBody db :
  refused db (join now1 now2 insertedId None id db)
  /\ refused db (updateProgress now1 now2 None id reqBody db)
  /\ refused db (leave None id db)
  /\ refused db (listMine None db)
  /\ refused db (server_join now1 now2 insertedId None id db)
  /\ refused db (server_listMine None db).
Proof. unfold refused. repeat split; reflexivity. Qed.

(** An empty header value is refused like a missing one. *)
Lemma empty_identity_refused now1 now2 insertedId id reqBody db :
  refused db (join now1 now2 insertedId (Some "") id db)
  /\ refused db (updateProgress now1 now2 (Some "") id reqBody db)
  /\ refused db (leave (Some "") id db)
  /\ refused db (listMine (Some "") db).
Proof. unfold refused. repeat split; reflexivity. Qed.

(** ** Join *)

Lemma total_update_first (p : Challenge -> bool) f l x :
  first_match p l = Some x ->
  fold_right Z.add 0%Z (map participants (update_first p f l)) =
  (fold_right Z.add 0 (map participants l) - participants x + participants (f x))%Z.
Proof.
  induction l as [|y l IH]; simpl; [discriminate|].
  destruct (p y) eqn:E.
  - intros [= ->]. simpl. lia.
  - intros H. simpl. rewrite (IH H). lia.
Qed.

Lemma by_ch_id_inc ref n c : by_ch_id ref (inc_participants n c) = by_ch_id ref c.
Proof. reflexivity. Qed.

(** What a Join that finds the challenge and no enrollment leaves behind. *)
Lemma join_created now1 now2 insertedId email id db ch :
  email <> "" ->
  first_match (by_ch_id (filter_of id)) (challenges db) = Some ch ->
  first_match (enrolled email (ch_id ch)) (userChallenges db) = None ->
  existsb (by_id insertedId) (userChallenges db) = false ->
  let uc := new_userChallenge insertedId email (ch_id ch) now1 now2 in
  let r := join now1 now2 insertedId (Some email) id db in
  response r = json 201 (Joined insertedId uc)
  /\ userChallenges (store r) = userChallenges db ++ [uc]
  /\ challenges (store r) =
     update_first (by_ch_id (ch_id ch)) (inc_participants 1) (challenges db)
  /\ first_match (by_ch_id (filter_of id)) (challenges (store r)) =
     Some (inc_participants 1 ch)
  /\ total_participants (store r) = (total_participants db + 1)%Z.
Proof.
  intros Hemail Hch He Hdup uc r. subst r.
  rewrite join_run by assumption.
  rewrite Hch, He, Hdup. cbn.
  destruct (first_match_Some _ _ _ Hch) as [_ Hid].
  apply bool_decide_eq_true in Hid.
  repeat split.
  - rewrite Hid.
    apply (first_match_update_first _ _ _ _ _ Hch); [reflexivity|].
    cbn. now apply bool_decide_eq_true.
  - unfold total_participants. cbn.
    rewrite (total_update_first _ _ _ ch); [cbn; lia|].
    now rewrite Hid.
Qed.

(** C1: Join is idempotent.  When the challenge exists and the caller is
    already enrolled in it, Join replies 200 "Already joined" with the
    stored enrollment (the creating Join replies 201), and leaves the
    store as it was: no second enrollment, no counter bump.  Hence of two
    Joins in a row by the same caller on the same challenge the first
    creates the enrollment and bumps the counter, the second changes
    nothing: one enrollment for the pair, all counters together up by 1. *)
Theorem join_idempotent now1 now2 i1 now3 now4 i2 email id db ch :
  email <> "" ->
  first_match (by_ch_id (filter_of id)) (challenges db) = Some ch ->
  (forall e,
      first_match (enrolled email (ch_id ch)) (userChallenges db) = Some e ->
      let r := join now1 now2 i1 (Some email) id db in
      response r = json 200 (AlreadyJoined e)
      /\ store r = db
      /\ issued r = [OpFindOne Challenges; OpFindOne UserChallenges])
  /\ (first_match (enrolled email (ch_id ch)) (userChallenges db) = None ->
      existsb (by_id i1) (userChallenges db) = false ->
      let uc := new_userChallenge i1 email (ch_id ch) now1 now2 in
      let r1 := join now1 now2 i1 (Some email) id db in
      let r2 := join now3 now4 i2 (Some email) id (store r1) in
      response r1 = json 201 (Joined i1 uc)
      /\ response r2 = json 200 (AlreadyJoined uc)
      /\ store r2 = store r1
      /\ List.filter (enrolled email (ch_id ch)) (userChallenges (store r2)) = [uc]
      /\ first_match (by_ch_id (filter_of id)) (challenges (store r2)) =
         Some (inc_participants 1 ch)
      /\ total_participants (store r2) = (total_participants db + 1)%Z).
Proof.
  intros Hemail Hch. split.
  - intros e He r. subst r. rewrite join_run by assumption.
    rewrite Hch, He. auto.
  - intros He Hdup. cbv zeta.
    destruct (join_created now1 now2 i1 email id db ch Hemail Hch He Hdup)
      as (Hr1 & Hucs & Hchs & Hch' & Htot).
    cbv zeta in Hr1, Hucs, Hchs, Hch', Htot.
    set (uc := new_userChallenge i1 email (ch_id ch) now1 now2) in *.
    set (r1 := join now1 now2 i1 (Some email) id db) in *.
    assert (Hmine : enrolled email (ch_id ch) uc = true).
    { unfold enrolled, uc. cbn. now rewrite !bool_decide_true. }
    assert (He' : first_match (enrolled email (ch_id (inc_participants 1 ch)))
                    (userChallenges (store r1)) = Some uc).
    { cbn [ch_id inc_participants].
      rewrite Hucs, first_match_app_None by assumption. now rewrite Hmine. }
    assert (Hr2 : join now3 now4 i2 (Some email) id (store r1)
                  = mkRun (inr (json 200 (AlreadyJoined uc))) (store r1)
                          [OpFindOne Challenges; OpFindOne UserChallenges]).
    { rewrite join_run by assumption.
      now rewrite Hch', He'. }
    rewrite Hr2. cbn [store response result].
    repeat split; try assumption.
    rewrite Hucs, List.filter_app. cbn [List.filter]. rewrite Hmine.
    replace (List.filter _ (userChallenges db)) with (@nil UserChallenge); [reflexivity|].
    symmetry. clear -He. induction (userChallenges db) as [|y l IH]; cbn in *; [reflexivity|].
    destruct (enrolled email (ch_id ch) y); [discriminate | auto].
Qed.

(** Join of api/index.js replies 404 "Challenge not found" and leaves the
    store as it was when no challenge is stored under the id (whatever the
    id, well-formed or not); when the challenge is
    there and the caller has no enrollment in it, Join replies 201 and
    appends one enrollment with status Ongoing, progress 0, an empty log
    and the two clock readings of the call as joinDate and lastUpdated,
    and it adds exactly 1 to the participants counter of that challenge
    and to no other. *)
Theorem join_not_found_or_created now1 now2 insertedId email id db :
  email <> "" ->
  let r := join now1 now2 insertedId (Some email) id db in
  (first_match (by_ch_id (filter_of id)) (challenges db) = None ->
   response r = json 404 (Message "Challenge not found")
   /\ store r = db)
  /\ (forall ch,
      first_match (by_ch_id (filter_of id)) (challenges db) = Some ch ->
      first_match (enrolled email (ch_id ch)) (userChallenges db) = None ->
      existsb (by_id insertedId) (userChallenges db) = false ->
      exists uc,
        response r = json 201 (Joined insertedId uc)
        /\ uc_id uc = insertedId /\ userId uc = email /\ challengeId uc = ch_id ch
        /\ status uc = Ongoing /\ progress uc = num 0 /\ progressLogs uc = []
        /\ joinDate uc = now1 /\ lastUpdated uc = now2
        /\ userChallenges (store r) = userChallenges db ++ [uc]
        /\ challenges (store r) =
           update_first (by_ch_id (ch_id ch)) (inc_participants 1) (challenges db)
        /\ first_match (by_ch_id (filter_of id)) (challenges (store r)) =
           Some (inc_participants 1 ch)
        /\ participants (inc_participants 1 ch) = (participants ch + 1)%Z
        /\ total_participants (store r) = (total_participants db + 1)%Z).
Proof.
  intros Hemail r. split.
  - intros Hch. subst r. rewrite join_run by assumption.
    rewrite Hch. auto.
  - intros ch Hch He Hdup.
    destruct (join_created now1 now2 insertedId email id db ch Hemail Hch He Hdup)
      as (Hr & Hucs & Hchs & Hch' & Htot).
    eexists. split; [exact Hr|]. cbn. repeat split; assumption.
Qed.

(** ** Join of server.js *)

Lemma server_join_run now1 now2 insertedId email id db :
  email <> "" ->
  server_join now1 now2 insertedId (Some email) id db =
  match ObjectId_new id with
  | None =>
      mkRun (inr (json 500 (Failure "Failed to join challenge" BSONError))) db []
  | Some oid =>
      match first_match (by_ch_id (IdOid oid)) (challenges db) with
      | None =>
          mkRun (inr (json 404 (Message "Challenge not found"))) db
                [OpFindOne Challenges]
      | Some ch =>
          match first_match (enrolled email (IdOid oid)) (userChallenges db) with
          | Some e =>
              mkRun (inr (json 200 (AlreadyJoined e))) db
                    [OpFindOne Challenges; OpFindOne UserChallenges]
          | None =>
              let uc := new_userChallenge insertedId email (IdOid oid) now1 now2 in
              if existsb (by_id insertedId) (userChallenges db)
              then mkRun (inr (json 500 (Failure "Failed to join challenge" DuplicateKey)))
                         db
                         [OpFindOne Challenges; OpFindOne UserChallenges;
                          OpInsertOne UserChallenges]
              else mkRun (inr (json 201 (Joined insertedId uc)))
                         (set_challenges
                            (update_first (by_ch_id (IdOid oid))
                                          (inc_participants 1) (challenges db))
                            (set_userChallenges (userChallenges db ++ [uc]) db))
                         [OpFindOne Challenges; OpFindOne UserChallenges;
                          OpInsertOne UserChallenges; OpUpdateOne Challenges 1]
          end
      end
  end.
Proof.
  intros Hemail. unfold server_join. rewrite requireAuth_Some by assumption.
  unfold try_catch. unfold_monad.
  destruct (ObjectId_new id) as [oid|] eqn:Hnew; cbn; [|reflexivity].
  fold (by_ch_id (IdOid oid)).
  destruct (first_match (by_ch_id (IdOid oid)) (challenges db)) as [ch|] eqn:Hch;
    cbn; [|reflexivity].
  rewrite ?Hnew. cbn. fold (enrolled email (IdOid oid)).
  destruct (first_match (enrolled email (IdOid oid)) (userChallenges db))
    as [e|] eqn:He; cbn; [reflexivity|].
  rewrite ?Hnew. cbn. fold (by_id insertedId).
  destruct (existsb (by_id insertedId) (userChallenges db)) eqn:Hdup; cbn;
    [reflexivity|].
  rewrite ?Hnew. cbn. fold (by_ch_id (IdOid oid)).
  rewrite matched_count_first_match, Hch. reflexivity.
Qed.

(** On the canonical string of an ObjectId the two copies of Join do the
    same: same reply, same store, same store operations. *)
Lemma server_join_agrees now1 now2 insertedId email id oid db :
  email <> "" ->
  ObjectId_isValid id = true ->
  ObjectId_new id = Some oid ->
  ObjectId_toString oid = id ->
  server_join now1 now2 insertedId (Some email) id db
  = join now1 now2 insertedId (Some email) id db.
Proof.
  intros Hemail Hvalid Hnew Hstr.
  rewrite server_join_run, join_run, Hnew by assumption.
  assert (Hf : filter_of id = IdOid oid).
  { unfold filter_of. now rewrite Hvalid, Hnew, bool_decide_true. }
  rewrite Hf. fold (by_ch_id (IdOid oid)).
  destruct (first_match (by_ch_id (IdOid oid)) (challenges db)) as [ch|] eqn:Hch;
    [|reflexivity].
  destruct (first_match_Some _ _ _ Hch) as [_ Hid].
  apply bool_decide_eq_true in Hid. rewrite Hid. reflexivity.
Qed.

(** On a string the constructor rejects, Join of server.js replies 500
    and leaves the store as it was. *)
Lemma server_join_malformed now1 now2 insertedId email id db :
  email <> "" ->
  ObjectId_new id = None ->
  statusCode (response (server_join now1 now2 insertedId (Some email) id db))
  = 500%nat
  /\ store (server_join now1 now2 insertedId (Some email) id db) = db.
Proof.
  intros Hemail Hnew. rewrite server_join_run, Hnew by assumption. auto.
Qed.

(** ** Refusals of UpdateProgress and Leave *)

(** The refusals of UpdateProgress and Leave to an identified caller: an
    id that is a well-formed ObjectId and names no enrollment gets 404
    NotFound, and one that names an enrollment of another user gets 403
    Forbidden; an id that is not a well-formed ObjectId makes the
    constructor throw and gets 500.  In all three cases the store is left
    as it was. *)
Theorem refusals_change_nothing now1 now2 email id reqBody db :
  email <> "" ->
  let r1 := updateProgress now1 now2 (Some email) id reqBody db in
  let r2 := leave (Some email) id db in
  (ObjectId_new id = None ->
   statusCode (response r1) = 500%nat /\ statusCode (response r2) = 500%nat
   /\ store r1 = db /\ store r2 = db)
  /\ (forall oid, ObjectId_new id = Some oid ->
      (first_match (by_id oid) (userChallenges db) = None ->
       statusCode (response r1) = 404%nat /\ statusCode (response r2) = 404%nat
       /\ store r1 = db /\ store r2 = db)
      /\ (forall uc,
          first_match (by_id oid) (userChallenges db) = Some uc ->
          userId uc <> email ->
          statusCode (response r1) = 403%nat /\ statusCode (response r2) = 403%nat
          /\ store r1 = db /\ store r2 = db)).
Proof.
  intros Hemail r1 r2. subst r1 r2.
  rewrite updateProgress_run, leave_run by assumption.
  split; [intros ->; auto|].
  intros oid ->. split.
  - intros ->. auto.
  - intros uc -> Hne. rewrite bool_decide_false by assumption. auto.
Qed.

(** ** Leave *)

Lemma first_match_positive (ref : id_val) (l : list Challenge) :
  NoDup (map ch_id l) ->
  first_match (joined_and_positive ref) l =
  match first_match (by_ch_id ref) l with
  | Some ch => if (0 <? participants ch)%Z then Some ch else None
  | None => None
  end.
Proof.
  unfold joined_and_positive, by_ch_id.
  induction l as [|c l IH]; cbn; [reflexivity|].
  intros Hnd. apply NoDup_cons in Hnd as [Hc Hnd].
  destruct (bool_decide (ch_id c = ref)) eqn:E; cbn.
  - destruct (0 <? participants c)%Z; [reflexivity|].
    apply bool_decide_eq_true in E. subst ref.
    apply first_match_None, not_true_is_false. intros Hex.
    apply existsb_exists in Hex as (c' & Hin & Hc').
    apply andb_true_iff in Hc' as [Hc' _]. apply bool_decide_eq_true in Hc'.
    apply Hc. rewrite <- Hc'. apply list_elem_of_In, in_map, Hin.
  - auto.
Qed.

Lemma first_match_other_update (ref ref' : id_val) p n (l : list Challenge) :
  (forall c, p c = true -> ch_id c = ref) ->
  ref' <> ref ->
  first_match (by_ch_id ref') (update_first p (inc_participants n) l) =
  first_match (by_ch_id ref') l.
Proof.
  intros Hp Hne. unfold by_ch_id.
  induction l as [|c l IH]; cbn; [reflexivity|].
  destruct (p c) eqn:E; cbn.
  - rewrite bool_decide_false; [reflexivity|].
    rewrite (Hp c E). congruence.
  - now rewrite IH.
Qed.

(** Effect of a Leave by the owner on the two collections. *)
Lemma leave_owner email id oid uc db :
  email <> "" ->
  ObjectId_new id = Some oid ->
  first_match (by_id oid) (userChallenges db) = Some uc ->
  userId uc = email ->
  let r := leave (Some email) id db in
  response r = json 200 LeftChallenge
  /\ userChallenges (store r) = delete_first (by_id oid) (userChallenges db)
  /\ challenges (store r) =
     update_first (joined_and_positive (challengeId uc)) (inc_participants (-1))
                  (challenges db)
  /\ issued r =
     [OpFindOne UserChallenges; OpDeleteOne UserChallenges 1;
      OpUpdateOne Challenges
        (matched_count (joined_and_positive (challengeId uc)) (challenges db))].
Proof.
  intros Hemail Hnew Huc Hown r. subst r.
  rewrite leave_run, Hnew, Huc, bool_decide_true by assumption. auto.
Qed.

(** C10: Leave by the owner of an enrollment whose challenge is no longer
    stored replies 200 "Left challenge": the enrollment is taken out of the
    collection, the challenges are left as they were, and the counter
    update is issued and matches no document. *)
Theorem orphan_leave_succeeds email id oid uc db :
  email <> "" ->
  ObjectId_new id = Some oid ->
  first_match (by_id oid) (userChallenges db) = Some uc ->
  userId uc = email ->
  first_match (by_ch_id (challengeId uc)) (challenges db) = None ->
  let r := leave (Some email) id db in
  response r = json 200 LeftChallenge
  /\ (exists l1 l2,
        userChallenges db = l1 ++ uc :: l2
        /\ first_match (by_id oid) l1 = None
        /\ userChallenges (store r) = l1 ++ l2)
  /\ challenges (store r) = challenges db
  /\ issued r = [OpFindOne UserChallenges; OpDeleteOne UserChallenges 1;
                 OpUpdateOne Challenges 0].
Proof.
  intros Hemail Hnew Huc Hown Horphan r.
  destruct (leave_owner email id oid uc db Hemail Hnew Huc Hown)
    as (Hr & Hucs & Hchs & Hops).
  fold r in Hr, Hucs, Hchs, Hops.
  assert (Hnone : first_match (joined_and_positive (challengeId uc)) (challenges db)
                  = None).
  { apply first_match_None, not_true_is_false. intros Hex.
    apply existsb_exists in Hex as (c & Hin & Hc).
    apply andb_true_iff in Hc as [Hc _].
    pose proof (first_match_None_In _ _ c Horphan Hin) as Hno.
    unfold by_ch_id in Hno. congruence. }
  repeat split.
  - exact Hr.
  - destruct (delete_first_split _ _ _ Huc) as (l1 & l2 & E1 & E2 & E3).
    exists l1, l2. rewrite Hucs. auto.
  - rewrite Hchs. now apply update_first_None.
  - rewrite Hops, matched_count_first_match, Hnone. reflexivity.
Qed.

(** ** Routes that only read *)

Lemma populate_store uc db : store (populate uc db) = db.
Proof.
  unfold populate. unfold_monad.
  destruct (id_truthy (challengeId uc) && ObjectId_isValid (id_String (challengeId uc)));
    cbn; [|reflexivity].
  destruct (ObjectId_new _); reflexivity.
Qed.

Lemma mapM_store {A B} (f : A -> M B) l db :
  (forall x db, store (f x db) = db) -> store (mapM f l db) = db.
Proof.
  intros Hf. revert db. induction l as [|x l IH]; intros db; cbn; [reflexivity|].
  unfold bind. specialize (Hf x db).
  destruct (f x db) as [[e|y] db' t]; cbn in *; [assumption|]. subst db'.
  specialize (IH db).
  destruct (mapM f l db) as [[e|ys] db' t']; cbn in *; assumption.
Qed.

Lemma listMine_store header db : store (listMine header db) = db.
Proof.
  unfold listMine, requireAuth.
  destruct header as [email|]; [|reflexivity].
  destruct (bool_decide (email = "")); [reflexivity|].
  unfold try_catch, bind, userChallenges_find. cbn.
  pose proof (mapM_store populate
                (all_matches (owned_by email) (userChallenges db))
                db populate_store) as H.
  destruct (mapM populate _ db) as [[e|l] db' t]; cbn in *; exact H.
Qed.

Lemma stats_store db : store (stats db) = db.
Proof. reflexivity. Qed.

(** ** The stores a request can lead to *)

(** Every request has one of the four effects on the store. *)
Lemma handle_effect r db : effect db r (store (handle r db)).
Proof.
  destruct r as [now1 now2 insertedId header id | header
                | now1 now2 header id reqBody | header id | ]; cbn [handle].
  - destruct header as [email|]; [|constructor].
    destruct (decide (email = "")) as [->|Hemail]; [constructor|].
    rewrite join_run by assumption.
    destruct (first_match _ (challenges db)) as [ch|] eqn:Hch; [|constructor].
    destruct (first_match _ (userChallenges db)) eqn:He; [constructor|].
    cbn. destruct (existsb _ (userChallenges db)); [constructor|].
    cbn. apply JoinEffect; [|assumption].
    destruct (first_match_Some _ _ _ Hch) as [_ Hid].
    apply bool_decide_eq_true in Hid. now rewrite Hid.
  - rewrite listMine_store. constructor.
  - destruct header as [email|]; [|constructor].
    destruct (decide (email = "")) as [->|Hemail]; [constructor|].
    rewrite updateProgress_run by assumption.
    destruct (ObjectId_new id) as [oid|]; [|constructor].
    destruct (first_match _ (userChallenges db)) as [uc|] eqn:Huc; [|constructor].
    destruct (bool_decide (userId uc = email)); [|constructor].
    cbn. now apply ProgressEffect with (uc := uc).
  - destruct header as [email|]; [|constructor].
    destruct (decide (email = "")) as [->|Hemail]; [constructor|].
    rewrite leave_run by assumption.
    destruct (ObjectId_new id) as [oid|]; [|constructor].
    destruct (first_match _ (userChallenges db)) as [uc|] eqn:Huc; [|constructor].
    destruct (bool_decide (userId uc = email)); [|constructor].
    cbn. now apply LeaveEffect.
  - rewrite stats_store. constructor.
Qed.

Lemma serve_invariant (P : Db -> Prop) (Q : Request -> Prop) rs db :
  (forall r db, Q r -> P db -> P (store (handle r db))) ->
  Forall Q rs -> P db -> P (serve rs db).
Proof.
  intros Hstep Hrs. revert db.
  induction Hrs as [|r rs Hr Hrs IH]; intros db Hdb; cbn; [assumption|].
  apply IH, Hstep; assumption.
Qed.

(** ** The participants counter *)

Lemma handle_counters_nonnegative r db :
  counters_nonnegative db -> counters_nonnegative (store (handle r db)).
Proof.
  unfold counters_nonnegative. intros H.
  destruct (handle_effect r db); cbn; try assumption.
  - apply Forall_update_first; [assumption|]. intros c Hc _. cbn. lia.
  - apply Forall_update_first; [assumption|]. intros c Hc Hp. cbn.
    apply andb_true_iff in Hp as [_ Hp]. apply Z.ltb_lt in Hp. lia.
Qed.

Lemma counter_after_leave ref (l : list Challenge) :
  NoDup (map ch_id l) ->
  participants <$> first_match (by_ch_id ref)
      (update_first (joined_and_positive ref) (inc_participants (-1)) l)
  = guarded_decrement <$> (participants <$> first_match (by_ch_id ref) l).
Proof.
  intros Hnd. pose proof (first_match_positive ref l Hnd) as Hpos.
  destruct (first_match (by_ch_id ref) l) as [ch|] eqn:Hch.
  - cbn. unfold guarded_decrement.
    destruct (0 <? participants ch)%Z eqn:Hp.
    + erewrite (first_match_update_first _ (by_ch_id ref)); eauto.
      * intros c Hc. unfold joined_and_positive, by_ch_id.
        destruct (bool_decide (ch_id c = ref)) eqn:E; cbn; [|reflexivity].
        (* the only challenge stored under [ref] is [ch] *)
        apply bool_decide_eq_true in E.
        destruct (first_match_Some _ _ _ Hch) as [Hin Hid].
        apply bool_decide_eq_true in Hid.
        assert (c = ch) as ->; [|now rewrite Hp].
        clear -Hnd Hc Hin E Hid. induction l as [|y l IH]; [contradiction|].
        cbn in Hnd. apply NoDup_cons in Hnd as [Hy Hnd].
        destruct Hc as [-> | Hc], Hin as [-> | Hin]; auto.
        -- exfalso. apply Hy. rewrite E, <- Hid. apply list_elem_of_In, in_map, Hin.
        -- exfalso. apply Hy. rewrite Hid, <- E. apply list_elem_of_In, in_map, Hc.
      * rewrite by_ch_id_inc. now destruct (first_match_Some _ _ _ Hch).
    + rewrite update_first_None by assumption. now rewrite Hch.
  - rewrite update_first_None by assumption. now rewrite Hch.
Qed.

Lemma Forall2_update_first {A} (R : A -> A -> Prop) p f (l : list A) :
  (forall x, R x x) -> (forall x, p x = true -> R x (f x)) ->
  Forall2 R l (update_first p f l).
Proof.
  intros Hrefl Hf. induction l as [|x l IH]; cbn; [constructor|].
  destruct (p x) eqn:E; constructor; auto.
  clear IH. induction l; constructor; auto.
Qed.

(** Whatever the request, the challenges keep their places and [_id]s,
    and a counter that is not negative is not negative afterwards. *)
Lemma handle_keeps_counters r db :
  Forall2 (fun c c' => ch_id c' = ch_id c
                       /\ ((0 <= participants c)%Z -> (0 <= participants c')%Z))
          (challenges db) (challenges (store (handle r db))).
Proof.
  assert (Hrefl : forall l : list Challenge,
            Forall2 (fun c c' => ch_id c' = ch_id c
                       /\ ((0 <= participants c)%Z -> (0 <= participants c')%Z))
                    l l).
  { induction l; constructor; auto. }
  destruct (handle_effect r db); cbn; try apply Hrefl.
  - apply Forall2_update_first; [auto|]. intros c _. cbn. split; [reflexivity | lia].
  - apply Forall2_update_first; [auto|]. intros c Hp. cbn.
    apply andb_true_iff in Hp as [_ Hp]. apply Z.ltb_lt in Hp.
    split; [reflexivity | lia].
Qed.

Lemma serve_keeps_counters rs db :
  Forall2 (fun c c' => ch_id c' = ch_id c
                       /\ ((0 <= participants c)%Z -> (0 <= participants c')%Z))
          (challenges db) (challenges (serve rs db)).
Proof.
  revert db. induction rs as [|r rs IH]; intros db; cbn [serve].
  - induction (challenges db); constructor; auto.
  - specialize (IH (store (handle r db))).
    pose proof (handle_keeps_counters r db) as Hstep.
    revert IH. generalize (challenges (serve rs (store (handle r db)))).
    induction Hstep as [|c c' l l' [Hid Hc] Hl IHl]; intros l'' H;
      inversion H as [|c0 c'' l0 l0'' [Hid' Hc'] Hl']; subst; constructor.
    + split; [congruence | auto].
    + now apply IHl.
Qed.

Lemma counter_kept (ref : id_val) (l l' : list Challenge) n :
  Forall2 (fun c c' => ch_id c' = ch_id c
                       /\ ((0 <= participants c)%Z -> (0 <= participants c')%Z))
          l l' ->
  participants <$> first_match (by_ch_id ref) l = Some n ->
  (0 <= n)%Z ->
  exists n', participants <$> first_match (by_ch_id ref) l' = Some n'
             /\ (0 <= n')%Z.
Proof.
  unfold by_ch_id. induction 1 as [|c c' l l' [Hid Hc] Hl IH]; cbn;
    [discriminate|].
  rewrite Hid. destruct (bool_decide (ch_id c = ref)); [|exact IH].
  cbn. intros [= <-] Hn. eauto.
Qed.

(** C3: a participants counter that is not negative is never made
    negative, whatever requests are served and however many of them are
    Leaves, and whatever the other counters are.  A Leave by the owner
    takes exactly the enrollment it names out of the collection and then,
    [_id]s being unique, replaces the counter n of the challenge it
    referenced by n - 1 when n > 0, and writes no challenge when n <= 0 or
    when the challenge is gone; the counters of the other challenges are
    left alone. *)
Theorem counter_never_negative db :
  (forall rs ref n,
      counter db ref = Some n -> (0 <= n)%Z ->
      exists n', counter (serve rs db) ref = Some n' /\ (0 <= n')%Z)
  /\ (forall email id oid uc,
        email <> "" ->
        ObjectId_new id = Some oid ->
        first_match (by_id oid) (userChallenges db) = Some uc ->
        userId uc = email ->
        let r := leave (Some email) id db in
        response r = json 200 LeftChallenge
        /\ (exists l1 l2,
              userChallenges db = l1 ++ uc :: l2
              /\ first_match (by_id oid) l1 = None
              /\ userChallenges (store r) = l1 ++ l2)
        /\ issued r =
           [OpFindOne UserChallenges; OpDeleteOne UserChallenges 1;
            OpUpdateOne Challenges
              (matched_count (joined_and_positive (challengeId uc)) (challenges db))]
        /\ (forall ref, ref <> challengeId uc ->
            counter (store r) ref = counter db ref)
        /\ (unique_challenge_ids db ->
            (forall n, counter db (challengeId uc) = Some n -> (0 < n)%Z ->
                       counter (store r) (challengeId uc) = Some (n - 1)%Z)
            /\ (forall n, counter db (challengeId uc) = Some n -> (n <= 0)%Z ->
                          challenges (store r) = challenges db)
            /\ (counter db (challengeId uc) = None ->
                challenges (store r) = challenges db))).
Proof.
  split.
  - intros rs ref n. unfold counter.
    apply counter_kept, serve_keeps_counters.
  - intros email id oid uc Hemail Hnew Huc Hown r.
    destruct (leave_owner email id oid uc db Hemail Hnew Huc Hown)
      as (Hr & Hucs & Hchs & Hops).
    fold r in Hr, Hucs, Hchs, Hops.
    split; [exact Hr|]. split.
    { destruct (delete_first_split _ _ _ Huc) as (l1 & l2 & E1 & E2 & E3).
      exists l1, l2. rewrite Hucs. auto. }
    split; [exact Hops|]. split.
    { intros ref Hne. unfold counter. rewrite Hchs.
      erewrite first_match_other_update; eauto.
      intros c Hc. apply andb_true_iff in Hc as [Hc _].
      now apply bool_decide_eq_true in Hc. }
    intros Huniq. unfold counter. rewrite Hchs. split; [|split].
    + intros n Hn Hpos. rewrite counter_after_leave, Hn by assumption.
      cbn. unfold guarded_decrement.
      apply Z.ltb_lt in Hpos. now rewrite Hpos.
    + intros n Hn Hle. apply update_first_None.
      rewrite first_match_positive by assumption.
      destruct (first_match _ (challenges db)) as [ch|]; [|reflexivity].
      cbn in Hn. injection Hn as ->.
      apply Z.ltb_ge in Hle. now rewrite Hle.
    + intros Hnone. apply update_first_None.
      rewrite first_match_positive by assumption.
      destruct (first_match _ (challenges db)) as [ch|]; [discriminate | reflexivity].
Qed.

(** ** Progress and status *)

Lemma progress_step_ok now1 now2 reqBody uc :
  progress_ok uc ->
  match body_progress reqBody with JSnumber n => isNaN n | _ => false end = false ->
  progress_ok (progress_step now1 now2 reqBody uc).
Proof.
  intros Hok Hn. unfold progress_step, updates_of, progress_ok.
  destruct (body_progress reqBody) as [| | b | n | t |];
    destruct (bool_decide (typeof (body_addLogValue reqBody) = "number"));
    cbn; try exact Hok.
  all: split; [now apply clamp_in_range | apply status_of_Finished].
Qed.

Lemma new_userChallenge_ok insertedId email ref now1 now2 :
  progress_ok (new_userChallenge insertedId email ref now1 now2).
Proof.
  unfold progress_ok. cbn. split; [q_arith|]. split; discriminate.
Qed.

Lemma handle_progress_ok r db :
  NaN_progress r = false ->
  Forall progress_ok (userChallenges db) ->
  Forall progress_ok (userChallenges (store (handle r db))).
Proof.
  intros Hn H.
  destruct (handle_effect r db); cbn; try assumption.
  - apply Forall_app. split; [assumption|].
    constructor; [apply new_userChallenge_ok | constructor].
  - apply Forall_update_first; [assumption|].
    intros u Hu _. now apply progress_step_ok.
  - now apply Forall_delete_first.
Qed.

Lemma progress_step_id now1 now2 reqBody uc :
  uc_id (progress_step now1 now2 reqBody uc) = uc_id uc.
Proof.
  unfold progress_step.
  destruct (bool_decide (typeof (body_addLogValue reqBody) = "number")); reflexivity.
Qed.

(** What a progress request of the owner leaves behind under the id. *)
Lemma updateProgress_owner now1 now2 email id oid uc reqBody db :
  email <> "" ->
  ObjectId_new id = Some oid ->
  first_match (by_id oid) (userChallenges db) = Some uc ->
  userId uc = email ->
  let r := updateProgress now1 now2 (Some email) id reqBody db in
  response r = json 200 (Updated (Some (progress_step now1 now2 reqBody uc)))
  /\ first_match (by_id oid) (userChallenges (store r)) =
     Some (progress_step now1 now2 reqBody uc)
  /\ challenges (store r) = challenges db.
Proof.
  intros Hemail Hnew Huc Hown r. subst r.
  rewrite updateProgress_run, Hnew, Huc, bool_decide_true by assumption.
  cbn. repeat split.
  apply (first_match_update_first _ _ _ _ _ Huc); [reflexivity|].
  unfold by_id. rewrite progress_step_id.
  now destruct (first_match_Some _ _ _ Huc).
Qed.

Lemma progress_step_number now1 now2 x addLogValue uc :
  let u := progress_step now1 now2
             {| body_progress := JSnumber x; body_addLogValue := addLogValue |} uc in
  progress u = clamp_progress x /\ status u = status_of (clamp_progress x).
Proof.
  unfold progress_step, updates_of. cbn. auto.
Qed.

(** C2: the bodies of the requests are what [express.json()] parsed, and
    JSON has no NaN: every number of a body is finite or an infinity (the
    text 1e999 parses to Infinity).  From a store whose enrollments have
    their progress in [0,100] and status Finished exactly when progress
    >= 100 (the empty store, for one), every sequence of such requests
    leads to such a store; and a progress request of the owner with such a
    number x stores x clamped to [0,100] (0 below 0, 100 above 100, x in
    between) and the status computed from that clamped number alone,
    whatever the log holds and whatever is logged in the same call. *)
Theorem progress_clamped db :
  (forall rs,
      Forall progress_ok (userChallenges db) ->
      Forall (fun r => NaN_progress r = false) rs ->
      Forall progress_ok (userChallenges (serve rs db)))
  /\ (forall now1 now2 email id oid uc x addLogValue,
        email <> "" ->
        ObjectId_new id = Some oid ->
        first_match (by_id oid) (userChallenges db) = Some uc ->
        userId uc = email ->
        isNaN x = false ->
        let r := updateProgress now1 now2 (Some email) id
                   {| body_progress := JSnumber x;
                      body_addLogValue := addLogValue |} db in
        exists u,
          response r = json 200 (Updated (Some u))
          /\ first_match (by_id oid) (userChallenges (store r)) = Some u
          /\ progress u = clamp_progress x
          /\ in_0_100 (progress u)
          /\ (num_le x (num 0) = true -> progress u = num 0)
          /\ (num_le (num 100) x = true -> progress u = num 100)
          /\ (num_lt (num 0) x = true -> num_lt x (num 100) = true ->
              progress u = x)
          /\ status u = status_of (clamp_progress x)
          /\ (status u = Finished <-> num_ge (progress u) (num 100) = true)).
Proof.
  split.
  - intros rs Hdb Hrs.
    apply (serve_invariant (fun db => Forall progress_ok (userChallenges db))
             (fun r => NaN_progress r = false)); auto.
    intros r db'. apply handle_progress_ok.
  - intros now1 now2 email id oid uc x addLogValue Hemail Hnew Huc Hown Hx r.
    destruct (updateProgress_owner now1 now2 email id oid uc
                {| body_progress := JSnumber x; body_addLogValue := addLogValue |}
                db Hemail Hnew Huc Hown) as (Hr & Hu & _).
    fold r in Hr, Hu. eexists. split; [exact Hr|]. split; [exact Hu|].
    destruct (clamp_cases x Hx) as (Hlo & Hhi & Hmid).
    destruct (progress_step_number now1 now2 x addLogValue uc) as [-> ->].
    split; [reflexivity|]. split; [now apply clamp_in_range|].
    split; [exact Hlo|]. split; [exact Hhi|]. split; [exact Hmid|].
    split; [reflexivity | apply status_of_Finished].
Qed.

(** ** The progress log *)

Lemma progress_step_logs now1 now2 p v uc :
  progressLogs (progress_step now1 now2
                  {| body_progress := p; body_addLogValue := JSnumber v |} uc)
  = progressLogs uc ++ [{| date := now1; value := v |}].
Proof. reflexivity. Qed.

Lemma progress_step_untouched now1 now2 reqBody uc :
  typeof (body_progress reqBody) <> "number" ->
  progress (progress_step now1 now2 reqBody uc) = progress uc
  /\ status (progress_step now1 now2 reqBody uc) = status uc.
Proof.
  intros H. unfold progress_step, updates_of.
  rewrite bool_decide_false by assumption.
  destruct (bool_decide (typeof (body_addLogValue reqBody) = "number")); auto.
Qed.

Lemma progress_step_owner now1 now2 reqBody uc :
  userId (progress_step now1 now2 reqBody uc) = userId uc.
Proof.
  unfold progress_step.
  destruct (bool_decide (typeof (body_addLogValue reqBody) = "number")); reflexivity.
Qed.

Lemma first_match_app_Some {A} (p : A -> bool) l l' x :
  first_match p l = Some x -> first_match p (l ++ l') = Some x.
Proof.
  induction l as [|y l IH]; cbn; [discriminate|].
  destruct (p y); auto.
Qed.

Lemma first_match_update_other {A} (p q : A -> bool) f l :
  (forall x, p x = true -> q x = false /\ q (f x) = false) ->
  first_match q (update_first p f l) = first_match q l.
Proof.
  intros H. induction l as [|x l IH]; cbn; [reflexivity|].
  destruct (p x) eqn:E; cbn.
  - destruct (H x E) as [-> ->]. reflexivity.
  - now rewrite IH.
Qed.

Lemma first_match_delete_first_other {A} (p q : A -> bool) l :
  (forall x, p x = true -> q x = false) ->
  first_match q (delete_first p l) = first_match q l.
Proof.
  intros H. induction l as [|x l IH]; cbn; [reflexivity|].
  destruct (p x) eqn:E; cbn.
  - now rewrite (H x E).
  - now rewrite IH.
Qed.

Lemma by_id_other (oid oid' : ObjectId) u :
  oid' <> oid -> by_id oid' u = true -> by_id oid u = false.
Proof.
  unfold by_id. intros Hne H. apply bool_decide_eq_true in H.
  apply bool_decide_eq_false. congruence.
Qed.

Lemma by_owner_true oid u email id :
  email <> "" -> userId u = email -> ObjectId_new id = Some oid ->
  by_owner oid u (Some email) id = true.
Proof.
  intros He Hu Hid. unfold by_owner.
  now rewrite bool_decide_false, !bool_decide_true.
Qed.

Lemma by_owner_other oid oid' u header id :
  ObjectId_new id = Some oid' -> oid' <> oid -> by_owner oid u header id = false.
Proof.
  intros Hid Hne. unfold by_owner. destruct header as [email|]; [|reflexivity].
  rewrite (bool_decide_false (ObjectId_new id = Some oid)) by congruence.
  apply andb_false_r.
Qed.

Lemma by_owner_malformed oid u header id :
  ObjectId_new id = None -> by_owner oid u header id = false.
Proof.
  intros Hid. unfold by_owner. destruct header as [email|]; [|reflexivity].
  rewrite (bool_decide_false (ObjectId_new id = Some oid)) by congruence.
  apply andb_false_r.
Qed.

Lemma by_owner_foreign oid u email id :
  userId u <> email -> by_owner oid u (Some email) id = false.
Proof.
  intros Hne. unfold by_owner.
  rewrite (bool_decide_false (userId u = email)) by assumption.
  now rewrite andb_false_r.
Qed.

Lemma by_owner_userId oid u u' header id :
  userId u' = userId u -> by_owner oid u' header id = by_owner oid u header id.
Proof. unfold by_owner. now intros ->. Qed.

(** One request and the enrollment stored under an [_id]: unless the
    request is a Leave of it by its owner, the enrollment is still stored
    under the [_id], with the same owner and with the log it had followed
    by what the request appended; progress and status are what they were
    unless the request is a progress request of the owner with a number
    as progress. *)
Lemma handle_on_enrollment r db oid uc :
  first_match (by_id oid) (userChallenges db) = Some uc ->
  removes oid uc r = false ->
  exists u,
    first_match (by_id oid) (userChallenges (store (handle r db))) = Some u
    /\ userId u = userId uc
    /\ progressLogs u = progressLogs uc ++ appended oid uc r
    /\ (sets_progress oid uc r = false ->
        progress u = progress uc /\ status u = status uc).
Proof.
  intros Huc Hrem.
  assert (Hsame : forall db', userChallenges db' = userChallenges db ->
            exists u,
              first_match (by_id oid) (userChallenges db') = Some u
              /\ userId u = userId uc
              /\ progressLogs u = progressLogs uc ++ []
              /\ (false = false -> progress u = progress uc /\ status u = status uc)).
  { intros db' ->. exists uc. rewrite app_nil_r. auto. }
  destruct r as [now1 now2 insertedId header id | header
                | now1 now2 header id reqBody | header id | ]; cbn [handle].
  - (* Join *)
    cbn [appended sets_progress].
    destruct header as [email|]; [|now apply Hsame].
    destruct (decide (email = "")) as [->|Hemail]; [now apply Hsame|].
    rewrite join_run by assumption.
    destruct (first_match _ (challenges db)) as [ch|]; [|now apply Hsame].
    destruct (first_match _ (userChallenges db)) as [e|] eqn:He in |- *;
      [now apply Hsame|].
    destruct (existsb _ (userChallenges db)); [now apply Hsame|].
    cbn. exists uc. rewrite app_nil_r.
    split; [now apply first_match_app_Some | auto].
  - (* ListMine *)
    cbn [appended sets_progress]. apply Hsame. now rewrite listMine_store.
  - (* UpdateProgress *)
    cbn [appended sets_progress].
    destruct header as [email|]; [|now apply Hsame].
    destruct (decide (email = "")) as [->|Hemail]; [now apply Hsame|].
    rewrite updateProgress_run by assumption.
    destruct (ObjectId_new id) as [oid'|] eqn:Hnew.
    2:{ rewrite (by_owner_malformed oid uc (Some email) id) by assumption.
        now apply Hsame. }
    destruct (decide (oid' = oid)) as [->|Hne].
    + rewrite Huc. destruct (decide (userId uc = email)) as [Hown|Hown].
      * rewrite bool_decide_true by assumption.
        rewrite (by_owner_true oid uc email id) by assumption. cbn [andb store].
        exists (progress_step now1 now2 reqBody uc).
        split.
        { cbn. apply (first_match_update_first _ _ _ _ _ Huc); [reflexivity|].
          unfold by_id. rewrite progress_step_id.
          now destruct (first_match_Some _ _ _ Huc). }
        split; [apply progress_step_owner|]. split.
        { unfold progress_step.
          destruct (bool_decide (typeof (body_addLogValue reqBody) = "number"));
            cbn; [reflexivity | now rewrite app_nil_r]. }
        intros Hp. apply bool_decide_eq_false in Hp.
        now apply progress_step_untouched.
      * rewrite bool_decide_false by assumption.
        rewrite (by_owner_foreign oid uc email id) by assumption.
        now apply Hsame.
    + rewrite (by_owner_other oid oid' uc (Some email) id) by assumption.
      cbn [andb].
      destruct (first_match (by_id oid') (userChallenges db)) as [uc'|];
        [|now apply Hsame].
      destruct (bool_decide (userId uc' = email)); [|now apply Hsame].
      cbn. exists uc. rewrite app_nil_r. split; [|auto].
      rewrite first_match_update_other; [exact Huc|].
      intros x Hx. split; [now apply (by_id_other oid oid')|].
      apply (by_id_other oid oid'); [assumption|].
      unfold by_id in *. now rewrite progress_step_id.
  - (* Leave *)
    cbn [appended sets_progress]. cbn [removes] in Hrem.
    destruct header as [email|]; [|now apply Hsame].
    destruct (decide (email = "")) as [->|Hemail]; [now apply Hsame|].
    rewrite leave_run by assumption.
    destruct (ObjectId_new id) as [oid'|] eqn:Hnew; [|now apply Hsame].
    destruct (decide (oid' = oid)) as [->|Hne].
    + rewrite Huc. destruct (decide (userId uc = email)) as [Hown|Hown].
      * rewrite (by_owner_true oid uc email id) in Hrem by assumption.
        discriminate.
      * rewrite bool_decide_false by assumption. now apply Hsame.
    + destruct (first_match (by_id oid') (userChallenges db)) as [uc'|];
        [|now apply Hsame].
      destruct (bool_decide (userId uc' = email)); [|now apply Hsame].
      cbn. exists uc. rewrite app_nil_r. split; [|auto].
      rewrite first_match_delete_first_other; [exact Huc|].
      intros x. now apply by_id_other.
  - (* ComputeStats *)
    cbn [appended sets_progress]. apply Hsame. now rewrite stats_store.
Qed.

Lemma serve_on_enrollment rs db oid uc u0 :
  first_match (by_id oid) (userChallenges db) = Some u0 ->
  userId u0 = userId uc ->
  Forall (fun r => removes oid uc r = false) rs ->
  exists u,
    first_match (by_id oid) (userChallenges (serve rs db)) = Some u
    /\ userId u = userId uc
    /\ progressLogs u = progressLogs u0 ++ flat_map (appended oid uc) rs
    /\ (Forall (fun r => sets_progress oid uc r = false) rs ->
        progress u = progress u0 /\ status u = status u0).
Proof.
  intros Hu0 Hid Hrs. revert db u0 Hu0 Hid.
  induction Hrs as [|r rs Hr Hrs IH]; intros db u0 Hu0 Hid; cbn [serve flat_map].
  - exists u0. rewrite app_nil_r. auto.
  - assert (Ha : appended oid u0 r = appended oid uc r).
    { destruct r; cbn; try reflexivity. now rewrite (by_owner_userId _ uc u0). }
    assert (Hs : sets_progress oid u0 r = sets_progress oid uc r).
    { destruct r; cbn; try reflexivity. now rewrite (by_owner_userId _ uc u0). }
    assert (Hr0 : removes oid u0 r = false).
    { rewrite <- Hr. destruct r; cbn; try reflexivity.
      now apply by_owner_userId. }
    destruct (handle_on_enrollment r db oid u0 Hu0 Hr0)
      as (u1 & Hu1 & Hid1 & Hlog1 & Hkeep1).
    destruct (IH _ u1 Hu1 (eq_trans Hid1 Hid)) as (u & Hu & Hidu & Hlog & Hkeep).
    exists u. split; [exact Hu|]. split; [exact Hidu|]. split.
    + rewrite Hlog, Hlog1, Ha, app_assoc. reflexivity.
    + intros Hall. inversion Hall as [|r' rs' Hr' Hrs']; subst.
      destruct (Hkeep Hrs') as [-> ->]. apply Hkeep1. now rewrite Hs.
Qed.

(** C6: the progress log only grows at its end, and apart from the
    progress field.  Whatever requests are served, by whomever, as long
    as none of them is a Leave of the enrollment by its owner the
    enrollment stays stored under its [_id] and its log is the log it had,
    entry for entry, followed by one entry for each progress request of
    the owner that carried a number as addLogValue, in the order of the
    requests, each holding the clock reading and the value of its request;
    no other request touches the log.  Progress and status are what they
    were unless one of the requests was a progress request of the owner
    with a number as progress.  In particular, after N progress requests
    of the owner that each carry a number as addLogValue, a log that was
    empty has N entries, with the values in the order of the calls. *)
Theorem log_append_only db oid uc :
  first_match (by_id oid) (userChallenges db) = Some uc ->
  (forall rs,
      Forall (fun r => removes oid uc r = false) rs ->
      exists u,
        first_match (by_id oid) (userChallenges (serve rs db)) = Some u
        /\ userId u = userId uc
        /\ progressLogs u = progressLogs uc ++ flat_map (appended oid uc) rs
        /\ (Forall (fun r => sets_progress oid uc r = false) rs ->
            progress u = progress uc /\ status u = status uc))
  /\ (forall email id (calls : list log_call),
        email <> "" ->
        ObjectId_new id = Some oid ->
        userId uc = email ->
        exists u,
          first_match (by_id oid)
            (userChallenges (serve (map (log_request email id) calls) db)) = Some u
          /\ progressLogs u = progressLogs uc ++ map log_entry_of calls
          /\ length (progressLogs u) = (length (progressLogs uc) + length calls)%nat
          /\ (Forall (fun c => typeof (call_progress c) <> "number") calls ->
              progress u = progress uc /\ status u = status uc)).
Proof.
  intros Huc. split.
  - intros rs Hrs. now apply serve_on_enrollment.
  - intros email id calls Hemail Hnew Hown.
    assert (Hrs : Forall (fun r => removes oid uc r = false)
                    (map (log_request email id) calls)).
    { apply List.Forall_forall. intros r Hr. apply in_map_iff in Hr as ([[[n1 n2] p] v] & <- & _).
      reflexivity. }
    destruct (serve_on_enrollment _ db oid uc uc Huc eq_refl Hrs)
      as (u & Hu & _ & Hlog & Hkeep).
    assert (Happ : flat_map (appended oid uc) (map (log_request email id) calls)
                   = map log_entry_of calls).
    { clear Hrs Hlog Hkeep Hu. induction calls as [|[[[n1 n2] p] v] calls IH];
        [reflexivity|].
      cbn [map flat_map]. rewrite IH.
      unfold log_request, log_entry_of, appended.
      rewrite (by_owner_true oid uc email id) by assumption.
      reflexivity. }
    exists u. split; [exact Hu|]. rewrite Happ in Hlog.
    split; [exact Hlog|]. split.
    + rewrite Hlog, length_app, length_map. reflexivity.
    + intros Hcalls. apply Hkeep.
      apply List.Forall_forall. intros r Hr.
      apply in_map_iff in Hr as ([[[n1 n2] p] v] & <- & Hin).
      unfold log_request, sets_progress.
      rewrite (by_owner_true oid uc email id) by assumption. cbn [andb body_progress].
      apply bool_decide_eq_false.
      exact (proj1 (List.Forall_forall _ _) Hcalls _ Hin).
Qed.

(** ** Invariants of the two collections *)

Lemma filter_update_first {A} (p q : A -> bool) f l :
  (forall x, q (f x) = q x) ->
  length (List.filter q (update_first p f l)) = length (List.filter q l).
Proof.
  intros Hq. induction l as [|x l IH]; cbn; [reflexivity|].
  destruct (p x); cbn.
  - rewrite Hq. destruct (q x); reflexivity.
  - destruct (q x); cbn; now rewrite IH.
Qed.

Lemma filter_delete_first {A} (p q : A -> bool) l x :
  first_match p l = Some x ->
  (length (List.filter q (delete_first p l)) + (if q x then 1 else 0)
   = length (List.filter q l))%nat.
Proof.
  induction l as [|y l IH]; cbn; [discriminate|].
  destruct (p y).
  - intros [= ->]. destruct (q x); cbn; lia.
  - intros H. specialize (IH H). cbn. destruct (q y); cbn. all: lia.
Qed.

Lemma filter_first_match_None {A} (q : A -> bool) l :
  first_match q l = None -> List.filter q l = [].
Proof.
  induction l as [|y l IH]; cbn; [reflexivity|].
  destruct (q y); [discriminate | exact IH].
Qed.

Lemma filter_first_match_Some {A} (p q : A -> bool) l x :
  first_match p l = Some x -> q x = true ->
  (1 <= length (List.filter q l))%nat.
Proof.
  induction l as [|y l IH]; cbn; [discriminate|].
  destruct (p y).
  - intros [= ->] ->. cbn. lia.
  - intros H Hq. specialize (IH H Hq). destruct (q y); cbn; lia.
Qed.

Lemma ch_ids_update_first p n (l : list Challenge) :
  map ch_id (update_first p (inc_participants n) l) = map ch_id l.
Proof.
  induction l as [|c l IH]; cbn; [reflexivity|].
  destruct (p c); cbn; [reflexivity | now rewrite IH].
Qed.

(** With unique [_id]s, an update under a filter that fixes the [_id]
    touches the one challenge stored under it. *)
Lemma Forall_update_unique (P Q : Challenge -> Prop) p f key l :
  (forall c, p c = true -> ch_id c = key) ->
  NoDup (map ch_id l) ->
  Forall P l ->
  (forall c, P c -> p c = true -> Q (f c)) ->
  (forall c, P c -> (p c = false \/ ch_id c <> key) -> Q c) ->
  Forall Q (update_first p f l).
Proof.
  intros Hkey Hnd HP Hupd Hkeep.
  induction l as [|c l IH]; cbn; [constructor|].
  cbn in Hnd. apply NoDup_cons in Hnd as [Hc Hnd].
  apply Forall_cons in HP as [HPc HPl].
  destruct (p c) eqn:E.
  - constructor; [now apply Hupd|].
    apply List.Forall_forall. intros c' Hin.
    apply Hkeep; [now apply (proj1 (List.Forall_forall _ _) HPl)|].
    right. intros Heq. apply Hc. rewrite (Hkey c E), <- Heq.
    apply list_elem_of_In, in_map, Hin.
  - constructor; [apply Hkeep; auto | now apply IH].
Qed.

Lemma enrolled_progress_step email ref now1 now2 reqBody u :
  enrolled email ref (progress_step now1 now2 reqBody u) = enrolled email ref u.
Proof.
  unfold enrolled, progress_step.
  destruct (bool_decide (typeof (body_addLogValue reqBody) = "number")); reflexivity.
Qed.

Lemma challengeId_progress_step now1 now2 reqBody u :
  challengeId (progress_step now1 now2 reqBody u) = challengeId u.
Proof.
  unfold progress_step.
  destruct (bool_decide (typeof (body_addLogValue reqBody) = "number")); reflexivity.
Qed.

Lemma handle_one_per_pair r db :
  one_per_pair db -> one_per_pair (store (handle r db)).
Proof.
  unfold one_per_pair. intros H.
  destruct (handle_effect r db) as [r | r now1 now2 insertedId email ch Hch He
                                    | now1 now2 header id reqBody oid uc Huc
                                    | r oid uc Huc]; cbn; intros email' ref'.
  - apply H.
  - rewrite List.filter_app, length_app. cbn.
    destruct (enrolled email' ref' (new_userChallenge _ _ _ _ _)) eqn:E; cbn.
    + apply andb_true_iff in E as [E1 E2].
      apply bool_decide_eq_true in E1, E2. cbn in E1, E2. subst email' ref'.
      now rewrite (filter_first_match_None _ _ He).
    + specialize (H email' ref'). lia.
  - rewrite filter_update_first; [apply H|].
    intros u. apply enrolled_progress_step.
  - pose proof (filter_delete_first (by_id oid) (enrolled email' ref') _ _ Huc).
    specialize (H email' ref'). lia.
Qed.

Lemma handle_counters_consistent r db :
  counters_consistent db -> counters_consistent (store (handle r db)).
Proof.
  unfold counters_consistent, unique_challenge_ids, enrollments_of.
  intros [Hnd H].
  destruct (handle_effect r db) as [r | r now1 now2 insertedId email ch Hch He
                                    | now1 now2 header id reqBody oid uc Huc
                                    | r oid uc Huc]; cbn.
  - auto.
  - split; [now rewrite ch_ids_update_first|].
    apply (Forall_update_unique _ _ _ _ (ch_id ch) _
             (fun c Hc => proj1 (bool_decide_eq_true _) Hc) Hnd H).
    + intros c Hc Hp. apply bool_decide_eq_true in Hp. cbn.
      rewrite List.filter_app, length_app. cbn.
      rewrite Hp, bool_decide_true by reflexivity. cbn. rewrite Hc, Hp. lia.
    + intros c Hc Hne. rewrite List.filter_app, length_app. cbn.
      rewrite bool_decide_false; [cbn; rewrite Hc; lia|].
      destruct Hne as [Hp | Hne]; [|congruence].
      apply bool_decide_eq_false in Hp. congruence.
  - split; [assumption|].
    eapply List.Forall_impl; [|exact H]. intros c Hc. cbn in *.
    rewrite filter_update_first; [exact Hc|].
    intros u. now rewrite challengeId_progress_step.
  - split; [now rewrite ch_ids_update_first|].
    assert (Hdel : forall ref,
              (length (List.filter (fun u => bool_decide (challengeId u = ref))
                         (delete_first (by_id oid) (userChallenges db)))
               + (if bool_decide (challengeId uc = ref) then 1 else 0)
               = length (List.filter (fun u => bool_decide (challengeId u = ref))
                           (userChallenges db)))%nat).
    { intros ref. exact (filter_delete_first _ _ _ _ Huc). }
    apply (Forall_update_unique _ _ _ _ (challengeId uc) _
             (fun c Hc => proj1 (bool_decide_eq_true _)
                            (proj1 (proj1 (andb_true_iff _ _) Hc))) Hnd H).
    + intros c Hc Hp. apply andb_true_iff in Hp as [Hid Hpos].
      apply bool_decide_eq_true in Hid. apply Z.ltb_lt in Hpos. cbn.
      specialize (Hdel (ch_id c)). rewrite bool_decide_true in Hdel by congruence.
      lia.
    + intros c Hc Hne. specialize (Hdel (ch_id c)).
      destruct (decide (challengeId uc = ch_id c)) as [Heq | Hneq].
      * rewrite bool_decide_true in Hdel by assumption.
        destruct Hne as [Hp | Hne]; [|congruence].
        apply andb_false_iff in Hp as [Hp | Hp].
        -- apply bool_decide_eq_false in Hp. congruence.
        -- apply Z.ltb_ge in Hp. lia.
      * rewrite bool_decide_false in Hdel by assumption. lia.
Qed.

(** Served one after the other, requests keep at most one enrollment per
    user and challenge. *)
Theorem one_enrollment_per_pair rs db :
  one_per_pair db -> one_per_pair (serve rs db).
Proof.
  intros H. apply (serve_invariant one_per_pair (fun _ => True)); auto.
  - intros r db' _. apply handle_one_per_pair.
  - apply List.Forall_forall. auto.
Qed.

(** Served one after the other, requests keep every participants counter
    equal to the number of enrollments that reference its challenge. *)
Theorem counters_stay_consistent rs db :
  counters_consistent db -> counters_consistent (serve rs db).
Proof.
  intros H. apply (serve_invariant counters_consistent (fun _ => True)); auto.
  - intros r db' _. apply handle_counters_consistent.
  - apply List.Forall_forall. auto.
Qed.

(** ** Statistics *)










(** ** ListMine *)

Lemma populate_run uc db :
  populate uc db =
  mkRun (inr (uc, first_match (by_ch_id (lookup_key (challengeId uc))) (challenges db)))
        db [OpFindOne Challenges].
Proof.
  unfold populate, lookup_key. unfold_monad.
  destruct (id_truthy (challengeId uc) && ObjectId_isValid (id_String (challengeId uc)))
    eqn:E; [|reflexivity].
  apply andb_true_iff in E as [_ E].
  destruct (ObjectId_isValid_new _ E) as [o ->]. reflexivity.
Qed.

Lemma lookup_key_resolved ref : resolves_to_itself ref -> lookup_key ref = ref.
Proof.
  unfold resolves_to_itself, lookup_key. destruct ref as [o|t]; cbn.
  - intros [-> ->]. reflexivity.
  - intros [-> | ->]; [reflexivity|]. now rewrite andb_false_r.
Qed.

Lemma server_populate_run uc db :
  server_populate uc db = mkRun (inr (paired db uc)) db [OpFindOne Challenges].
Proof. reflexivity. Qed.

Lemma mapM_run {A B} (f : A -> M B) (g : A -> B) (op : DbOp) l db :
  Forall (fun x => f x db = mkRun (inr (g x)) db [op]) l ->
  mapM f l db = mkRun (inr (map g l)) db (map (fun _ => op) l).
Proof.
  induction 1 as [|x l Hx Hl IH]; cbn; [reflexivity|].
  unfold bind. rewrite Hx, IH. cbn. now rewrite app_nil_r.
Qed.

Lemma listMine_reply email db :
  email <> "" ->
  response (listMine (Some email) db) =
  json 200 (Populated
    (map (fun u => (u, first_match (by_ch_id (lookup_key (challengeId u)))
                                   (challenges db)))
       (all_matches (owned_by email) (userChallenges db)))).
Proof.
  intros Hemail. unfold listMine. rewrite requireAuth_Some by assumption.
  unfold try_catch, bind at 1, userChallenges_find. cbn.
  unfold bind, response.
  erewrite (mapM_run populate _ (OpFindOne Challenges)); [reflexivity|].
  apply List.Forall_forall. intros u Hu. apply populate_run.
Qed.

(** The listing of api/index.js replies 200 with exactly the enrollments
    of the caller, in store order, each paired with the challenge stored
    under the [lookup_key] of its reference (none if there is none). *)
Theorem listMine_run email db :
  email <> "" ->
  response (listMine (Some email) db) =
  json 200 (Populated
    (map (fun u => (u, first_match (by_ch_id (lookup_key (challengeId u)))
                                   (challenges db)))
       (all_matches (owned_by email) (userChallenges db)))).
Proof. apply listMine_reply. Qed.

(** The listing of api/index.js pairs every enrollment of the caller with
    the challenge stored under its reference, as long as the references
    of the caller's enrollments resolve to themselves. *)
Theorem listMine_resolved email db :
  email <> "" ->
  Forall (fun u => userId u = email -> resolves_to_itself (challengeId u))
         (userChallenges db) ->
  response (listMine (Some email) db) =
  json 200 (Populated
    (map (paired db) (all_matches (owned_by email) (userChallenges db)))).
Proof.
  intros Hemail Hrefs. rewrite listMine_reply by assumption.
  do 2 f_equal. apply map_ext_in. intros u Hu.
  apply filter_In in Hu as [Hin Hmine]. apply bool_decide_eq_true in Hmine.
  unfold paired. rewrite lookup_key_resolved; [reflexivity|].
  now apply (proj1 (List.Forall_forall _ _) Hrefs u).
Qed.

(** The listing of server.js does so on every store. *)
Theorem server_listMine_exact email db :
  email <> "" ->
  response (server_listMine (Some email) db) =
  json 200 (Populated
    (map (paired db)
       (all_matches (owned_by email) (userChallenges db)))).
Proof.
  intros Hemail. unfold server_listMine. rewrite requireAuth_Some by assumption.
  unfold try_catch, bind at 1, userChallenges_find. cbn.
  unfold bind, response.
  erewrite (mapM_run server_populate (paired db) (OpFindOne Challenges)); [reflexivity|].
  apply List.Forall_forall. intros u Hu. apply server_populate_run.
Qed.

(** ** Challenge deletion *)

(** At the reply type of the participation routes [requireAuth_as] and
    [try_catch_as] are [requireAuth] and [try_catch]. *)
Lemma requireAuth_as_Response header (next : string -> M Response)
    (m : M Response) message :
  requireAuth_as header next = requireAuth header next
  /\ try_catch_as m message = try_catch m message.
Proof. split; reflexivity. Qed.

Lemma requireAuth_as_Some {R} `{Replies R} email (next : string -> M R) db :
  email <> "" -> requireAuth_as (Some email) next db = next email db.
Proof.
  intros He. unfold requireAuth_as. now rewrite bool_decide_false.
Qed.

Lemma requireAuth_as_refused {R} `{Replies R} header (next : string -> M R) db :
  header = None \/ header = Some "" ->
  requireAuth_as header next db
  = mkRun (inr (message_reply 401 "Unauthorized. Send x-user-email header for now."))
          db [].
Proof. intros [-> | ->]; reflexivity. Qed.

(** The deletion of api/index.js, as a function of the lookup. *)
Lemma deleteChallenge_run email id db :
  email <> "" ->
  deleteChallenge (Some email) id db =
  match first_match (by_ch_id (filter_of id)) (challenges db) with
  | None =>
      mkRun (inr (Refusal 404 "Challenge not found")) db [OpFindOne Challenges]
  | Some c =>
      if bool_decide (createdBy c = email) then
        mkRun (inr (Deleted 1))
              (set_challenges
                 (delete_first (by_ch_id (filter_of id)) (challenges db)) db)
              [OpFindOne Challenges; OpDeleteOne Challenges 1]
      else
        mkRun (inr (Refusal 403 "Forbidden: only owner can delete")) db
              [OpFindOne Challenges]
  end.
Proof.
  intros Hemail. unfold deleteChallenge. rewrite requireAuth_as_Some by assumption.
  unfold try_catch_as. erewrite bind_run by apply challengeFilter_run.
  unfold challenges_deleteOne. unfold_monad. cbn.
  destruct (first_match _ (challenges db)) as [c|] eqn:Hc; cbn; [|reflexivity].
  destruct (bool_decide (createdBy c = email)); cbn; [|reflexivity].
  now rewrite matched_count_first_match, Hc.
Qed.

(** The deletion of server.js, as a function of the lookup. *)
Lemma server_deleteChallenge_run email id db :
  email <> "" ->
  server_deleteChallenge (Some email) id db =
  match ObjectId_new id with
  | None => mkRun (inr (Failed "Failed to delete challenge" BSONError)) db []
  | Some oid =>
      match first_match (by_ch_id (IdOid oid)) (challenges db) with
      | None =>
          mkRun (inr (Refusal 404 "Challenge not found")) db [OpFindOne Challenges]
      | Some c =>
          if bool_decide (createdBy c = email) then
            mkRun (inr (Deleted 1))
                  (set_challenges
                     (delete_first (by_ch_id (IdOid oid)) (challenges db)) db)
                  [OpFindOne Challenges; OpDeleteOne Challenges 1]
          else
            mkRun (inr (Refusal 403 "Forbidden: only owner can delete")) db
                  [OpFindOne Challenges]
      end
  end.
Proof.
  intros Hemail. unfold server_deleteChallenge.
  rewrite requireAuth_as_Some by assumption.
  unfold try_catch_as, challenges_deleteOne. unfold_monad.
  destruct (ObjectId_new id) as [oid|]; cbn; [|reflexivity].
  destruct (first_match _ (challenges db)) as [c|] eqn:Hc; cbn; [|reflexivity].
  destruct (bool_decide (createdBy c = email)); cbn; [|reflexivity].
  now rewrite matched_count_first_match, Hc.
Qed.

Lemma first_match_delete_other (ref ref' : id_val) (l : list Challenge) :
  ref' <> ref ->
  first_match (by_ch_id ref') (delete_first (by_ch_id ref) l)
  = first_match (by_ch_id ref') l.
Proof.
  intros Hne. unfold by_ch_id. induction l as [|c l IH]; cbn; [reflexivity|].
  destruct (bool_decide (ch_id c = ref)) eqn:E; cbn.
  - apply bool_decide_eq_true in E.
    rewrite bool_decide_false by congruence. reflexivity.
  - now rewrite IH.
Qed.

Lemma first_match_delete_same (ref : id_val) (l : list Challenge) :
  NoDup (map ch_id l) ->
  first_match (by_ch_id ref) (delete_first (by_ch_id ref) l) = None.
Proof.
  unfold by_ch_id. induction l as [|c l IH]; cbn; [reflexivity|].
  intros Hnd. apply NoDup_cons in Hnd as [Hc Hnd].
  destruct (bool_decide (ch_id c = ref)) eqn:E; cbn.
  - apply bool_decide_eq_true in E. subst ref.
    apply first_match_None, not_true_is_false. intros Hex.
    apply existsb_exists in Hex as (c' & Hin & Hc').
    apply bool_decide_eq_true in Hc'.
    apply Hc. rewrite <- Hc'. apply list_elem_of_In, in_map, Hin.
  - rewrite E. auto.
Qed.

Lemma NoDup_delete_first (p : Challenge -> bool) (l : list Challenge) :
  NoDup (map ch_id l) -> NoDup (map ch_id (delete_first p l)).
Proof.
  induction l as [|c l IH]; cbn; [auto|].
  intros Hnd. apply NoDup_cons in Hnd as [Hc Hnd].
  destruct (p c); cbn; [assumption|].
  apply NoDup_cons. split; [|auto].
  intros Hin. apply Hc.
  apply list_elem_of_In in Hin. apply in_map_iff in Hin as (c' & Hid & Hin).
  apply In_delete_first in Hin.
  rewrite <- Hid. apply list_elem_of_In, in_map, Hin.
Qed.

Lemma joined_and_positive_None (ref : id_val) (l : list Challenge) :
  first_match (by_ch_id ref) l = None ->
  first_match (joined_and_positive ref) l = None.
Proof.
  intros Hnone. apply first_match_None, not_true_is_false. intros Hex.
  apply existsb_exists in Hex as (c & Hin & Hc).
  apply andb_true_iff in Hc as [Hc _].
  pose proof (first_match_None_In _ _ c Hnone Hin) as Hno.
  unfold by_ch_id in Hno. congruence.
Qed.

(** [DELETE /api/challenges/:id] of api/index.js.  Without an identity the
    reply is 401 and the store is not even read.  For an identified
    caller: nothing stored under the id gets 404, a challenge created by
    somebody else gets 403, and in both cases the store is left as it was;
    the creator gets [deletedCount] 1, the first challenge under the id is
    taken out of the collection and nothing else is written: every other
    [_id] resolves as before and, [_id]s being unique, nothing is stored
    under the id any more. *)
Theorem deleteChallenge_owner_only header id db :
  let r := deleteChallenge header id db in
  (header = None \/ header = Some "" ->
   result r = inr (Refusal 401 "Unauthorized. Send x-user-email header for now.")
   /\ store r = db /\ issued r = [])
  /\ (forall email, header = Some email -> email <> "" ->
      (first_match (by_ch_id (filter_of id)) (challenges db) = None ->
       result r = inr (Refusal 404 "Challenge not found") /\ store r = db)
      /\ (forall c,
          first_match (by_ch_id (filter_of id)) (challenges db) = Some c ->
          (createdBy c <> email ->
           result r = inr (Refusal 403 "Forbidden: only owner can delete")
           /\ store r = db)
          /\ (createdBy c = email ->
              result r = inr (Deleted 1)
              /\ store r
                 = set_challenges
                     (delete_first (by_ch_id (filter_of id)) (challenges db)) db
              /\ (forall ref, ref <> filter_of id ->
                  first_match (by_ch_id ref) (challenges (store r))
                  = first_match (by_ch_id ref) (challenges db))
              /\ (unique_challenge_ids db ->
                  first_match (by_ch_id (filter_of id)) (challenges (store r))
                  = None)))).
Proof.
  intros r. subst r. split.
  - intros Hh. unfold deleteChallenge.
    rewrite requireAuth_as_refused by assumption. auto.
  - intros email -> Hemail. rewrite deleteChallenge_run by assumption.
    split; [intros ->; auto|].
    intros c ->. split.
    + intros Hne. rewrite bool_decide_false by assumption. auto.
    + intros Hown. rewrite bool_decide_true by assumption. cbn.
      repeat split.
      * intros ref Hne. now apply first_match_delete_other.
      * intros Hnd. now apply first_match_delete_same.
Qed.

(** Deleting a challenge does not touch its enrollments.  When the
    creator deletes a challenge that a user is enrolled in, the enrollment
    stays in the store with a reference nothing is stored under: the
    listing pairs it with no challenge, a Join under the id is answered
    404, and a Leave by the enrolled user still succeeds, takes the
    enrollment out and writes no challenge. *)
Theorem deleted_challenge_orphans_enrollments owner email id eid oid uc c db :
  owner <> "" -> email <> "" ->
  unique_challenge_ids db ->
  first_match (by_ch_id (filter_of id)) (challenges db) = Some c ->
  createdBy c = owner ->
  ObjectId_new eid = Some oid ->
  first_match (by_id oid) (userChallenges db) = Some uc ->
  userId uc = email ->
  challengeId uc = ch_id c ->
  let db' := store (deleteChallenge (Some owner) id db) in
  userChallenges db' = userChallenges db
  /\ paired db' uc = (uc, None)
  /\ (forall now1 now2 insertedId,
      join now1 now2 insertedId (Some email) id db'
      = mkRun (inr (json 404 (Message "Challenge not found"))) db'
              [OpFindOne Challenges])
  /\ response (leave (Some email) eid db') = json 200 LeftChallenge
  /\ userChallenges (store (leave (Some email) eid db'))
     = delete_first (by_id oid) (userChallenges db)
  /\ challenges (store (leave (Some email) eid db')) = challenges db'.
Proof.
  intros Howner Hemail Hnd Hc Hcreated Hnew Huc Huser Href db'.
  assert (Hdb' : db' = set_challenges
                         (delete_first (by_ch_id (filter_of id)) (challenges db)) db).
  { subst db'. rewrite deleteChallenge_run, Hc, bool_decide_true by assumption.
    reflexivity. }
  destruct (first_match_Some _ _ _ Hc) as [_ Hid].
  apply bool_decide_eq_true in Hid.
  assert (Hgone : first_match (by_ch_id (filter_of id)) (challenges db') = None).
  { rewrite Hdb'. cbn. now apply first_match_delete_same. }
  assert (Hucs : userChallenges db' = userChallenges db) by now rewrite Hdb'.
  assert (Huc' : first_match (by_id oid) (userChallenges db') = Some uc)
    by now rewrite Hucs.
  destruct (leave_owner email eid oid uc db' Hemail Hnew Huc' Huser)
    as (Hr & Hl & Hch & _).
  repeat split.
  - exact Hucs.
  - unfold paired. now rewrite Href, Hid, Hgone.
  - intros now1 now2 insertedId. now rewrite join_run, Hgone by assumption.
  - exact Hr.
  - now rewrite Hl, Hucs.
  - rewrite Hch. apply update_first_None, joined_and_positive_None.
    now rewrite Href, Hid.
Qed.

Lemma deleteChallenge_store header id db :
  store (deleteChallenge header id db) = db
  \/ store (deleteChallenge header id db)
     = set_challenges (delete_first (by_ch_id (filter_of id)) (challenges db)) db.
Proof.
  destruct header as [email|]; [|now left].
  destruct (decide (email = "")) as [->|Hemail]; [now left|].
  rewrite deleteChallenge_run by assumption.
  destruct (first_match _ (challenges db)); [|now left].
  destruct (bool_decide _); [now right | now left].
Qed.

Lemma perform_invariant (P : Db -> Prop) os db :
  (forall o db, P db -> P (perform o db)) -> P db -> P (perform_all os db).
Proof.
  intros Hstep. revert db.
  induction os as [|o os IH]; intros db Hdb; cbn; [assumption|].
  apply IH, Hstep, Hdb.
Qed.

(** Participation requests and challenge deletions, served one after the
    other in any number and order, keep the three invariants of the two
    collections: no counter below 0, at most one enrollment per user and
    challenge, and (with unique challenge [_id]s) every counter equal to
    the number of enrollments referencing its challenge. *)
Theorem deletions_keep_invariants os db :
  (counters_nonnegative db -> counters_nonnegative (perform_all os db))
  /\ (one_per_pair db -> one_per_pair (perform_all os db))
  /\ (counters_consistent db -> counters_consistent (perform_all os db)).
Proof.
  split; [|split]; apply perform_invariant; clear db.
  - intros [r | header id] db H; cbn [perform].
    + now apply handle_counters_nonnegative.
    + destruct (deleteChallenge_store header id db) as [-> | ->]; [assumption|].
      unfold counters_nonnegative in *. cbn. now apply Forall_delete_first.
  - intros [r | header id] db H; cbn [perform].
    + now apply handle_one_per_pair.
    + destruct (deleteChallenge_store header id db) as [-> | ->]; assumption.
  - intros [r | header id] db H; cbn [perform].
    + now apply handle_counters_consistent.
    + destruct (deleteChallenge_store header id db) as [-> | ->]; [assumption|].
      destruct H as [Hnd H]. split.
      * unfold unique_challenge_ids in *. cbn. now apply NoDup_delete_first.
      * cbn. now apply Forall_delete_first.
Qed.

(** On the canonical string of an ObjectId the deletions of server.js and
    of api/index.js do the same: same reply, same store, same store
    operations.  On a string the constructor rejects server.js replies 500
    and leaves the store as it was. *)
Theorem server_deleteChallenge_agrees email id db :
  email <> "" ->
  (forall oid,
      ObjectId_isValid id = true ->
      ObjectId_new id = Some oid ->
      ObjectId_toString oid = id ->
      server_deleteChallenge (Some email) id db = deleteChallenge (Some email) id db)
  /\ (ObjectId_new id = None ->
      server_deleteChallenge (Some email) id db
      = mkRun (inr (Failed "Failed to delete challenge" BSONError)) db []).
Proof.
  intros Hemail. rewrite server_deleteChallenge_run, deleteChallenge_run by assumption.
  split.
  - intros oid Hvalid Hnew Hstr. rewrite Hnew.
    assert (Hf : filter_of id = IdOid oid).
    { unfold filter_of. now rewrite Hvalid, Hnew, bool_decide_true. }
    now rewrite Hf.
  - now intros ->.
Qed.

End Properties.

(** ** The Express application *)

Section ApplicationFacts.

Context `{express : ExpressOps}.

Lemma next_S fuel connect req idx err app :
  next (S fuel) connect req idx err app =
  match nth_error (stack app) idx with
  | None => Some (Unanswered err, app)
  | Some layer =>
      if err then
        match layer with
        | ErrorHandler => Some (Sent 500 "Something went wrong", app)
        | _ => next fuel connect req (S idx) true app
        end
      else
        match layer with
        | Cors =>
            match cors req with
            | CallNext => next fuel connect req (S idx) false app
            | CallNextError => next fuel connect req (S idx) true app
            | EndResponse status => Some (Ended status, app)
            end
        | BodyParser =>
            match express_json req with
            | CallNext => next fuel connect req (S idx) false app
            | CallNextError => next fuel connect req (S idx) true app
            | EndResponse status => Some (Ended status, app)
            end
        | Route m path e =>
            if route_matches m path req then Some (Served e, app)
            else next fuel connect req (S idx) false app
        | AttachRoutes =>
            match attachRoutes connect app with
            | (Some _, app) => next fuel connect req (S idx) false app
            | (None, app) => Some (Sent 500 "Server startup error", app)
            end
        | NotFound => Some (Sent 404 "Route not found", app)
        | ErrorHandler => next fuel connect req (S idx) false app
        end
  end.
Proof. reflexivity. Qed.

(** One request, as a function of what the library middleware and the
    health route do with it: on either stack the application can have, the
    request is answered by a library middleware, by the error handler, by
    the health route, by the attaching middleware or by the 404 handler. *)
Lemma dispatch_run connect req app :
  attached_or_not app ->
  dispatch connect req app =
  match cors req with
  | EndResponse status => Some (Ended status, app)
  | CallNextError => Some (Sent 500 "Something went wrong", app)
  | CallNext =>
      match express_json req with
      | EndResponse status => Some (Ended status, app)
      | CallNextError => Some (Sent 500 "Something went wrong", app)
      | CallNext =>
          if route_matches GET "/" req then Some (Served Health, app)
          else
            match attachRoutes connect app with
            | (Some _, app') => Some (Sent 404 "Route not found", app')
            | (None, app') => Some (Sent 500 "Server startup error", app')
            end
      end
  end.
Proof.
  intros H. destruct app as [st fl cc cd gc gd].
  assert (Hst : st = loaded_stack
                \/ (fl = true /\ st = loaded_stack ++ api_routes)) by exact H.
  clear H. unfold dispatch.
  destruct Hst as [-> | [-> ->]]; [destruct fl, cc, cd, connect|];
    cbn -[next]; repeat (rewrite next_S; cbn -[next]);
    destruct (cors req); try reflexivity;
    destruct (express_json req); try reflexivity;
    destruct (route_matches GET "/" req); reflexivity.
Qed.

Lemma attachRoutes_attached_or_not connect app :
  attached_or_not app ->
  attached_or_not (snd (attachRoutes connect app))
  /\ (routesAttached app = true -> snd (attachRoutes connect app) = app).
Proof.
  intros H. unfold attachRoutes.
  destruct (routesAttached app) eqn:Hf; cbn; [auto|].
  split; [|discriminate].
  destruct H as [Hs | [Hf' _]]; [|congruence].
  unfold getDb, attached_or_not. cbn.
  destruct (cachedClient app), (cachedDb app), connect; cbn; rewrite Hs; auto.
Qed.

Lemma dispatch_attached_or_not connect req app :
  attached_or_not app ->
  exists a app',
    dispatch connect req app = Some (a, app')
    /\ attached_or_not app'
    /\ (routesAttached app = true -> app' = app).
Proof.
  intros H. rewrite dispatch_run by assumption.
  destruct (attachRoutes_attached_or_not connect app H) as [H1 H2].
  destruct (cors req); [| |]; try (eexists _, _; split; [reflexivity|]; auto).
  destruct (express_json req); try (eexists _, _; split; [reflexivity|]; auto).
  destruct (route_matches GET "/" req);
    try (eexists _, _; split; [reflexivity|]; auto).
  destruct (attachRoutes connect app) as [[[]|] app']; cbn in *;
    eexists _, _; (split; [reflexivity|]); auto.
Qed.

Lemma serve_requests_attached_or_not rs app :
  attached_or_not app -> attached_or_not (serve_requests rs app).
Proof.
  revert app. induction rs as [|[connect req] rs IH]; intros app H;
    cbn [serve_requests]; [assumption|].
  destruct (dispatch_attached_or_not connect req app H) as (a & app' & -> & H' & _).
  now apply IH.
Qed.

Lemma load_attached_or_not mongoClient mongoDb :
  attached_or_not (load mongoClient mongoDb).
Proof. now left. Qed.

(** [getDb] connects at most once: once a call has succeeded, every later
    call returns the same client and database and changes nothing,
    whatever a new connection attempt would give.  A call that fails
    changes nothing either, and fails only when the connection is
    refused. *)
Theorem getDb_connects_once connect connect' app :
  (forall handles app1,
      getDb connect app = (Some handles, app1) ->
      getDb connect' app1 = (Some handles, app1))
  /\ (forall app1,
      getDb connect app = (None, app1) -> app1 = app /\ connect = None).
Proof.
  unfold getDb. split.
  - intros handles app1.
    destruct (cachedClient app) as [c|] eqn:Hc, (cachedDb app) as [d|] eqn:Hd,
      connect as [client|]; intros [= <- <-]; cbn; rewrite ?Hc, ?Hd; reflexivity.
  - intros app1.
    destruct (cachedClient app), (cachedDb app), connect; intros [= <-];
      auto.
Qed.

(** [attachRoutes] takes effect once: a call after another, whether that
    one attached the routes or failed to reach the database, succeeds and
    changes nothing.  So, however many requests are served, the stack is
    the one of the loaded module or that stack followed by the API routes,
    each registered once. *)
Theorem attachRoutes_once connect connect' app mongoClient mongoDb rs :
  attachRoutes connect' (snd (attachRoutes connect app))
  = (Some tt, snd (attachRoutes connect app))
  /\ (stack (serve_requests rs (load mongoClient mongoDb)) = loaded_stack
      \/ stack (serve_requests rs (load mongoClient mongoDb))
         = loaded_stack ++ api_routes).
Proof.
  split.
  - unfold attachRoutes at 2 3.
    destruct (routesAttached app) eqn:Hf; cbn.
    + unfold attachRoutes. now rewrite Hf.
    + unfold getDb. cbn.
      destruct (cachedClient app), (cachedDb app), connect; reflexivity.
  - destruct (serve_requests_attached_or_not rs _
                (load_attached_or_not mongoClient mongoDb)) as [H | [_ H]]; auto.
Qed.

(** No request reaches a handler of an API route.  [attachRoutes] pushes
    the API routes on the stack behind the 404 handler, which answers
    every request that comes to it.  After any sequence of requests, a
    request is answered, and by a route handler only if that is the health
    check; a request that [cors()] and [express.json()] pass on and that
    is not for the health check gets 404 'Route not found', or 500 'Server
    startup error' when it is the first to run [attachRoutes] and the
    database cannot be reached. *)
Theorem api_routes_never_reached mongoClient mongoDb rs connect req :
  let app := serve_requests rs (load mongoClient mongoDb) in
  exists a app',
    dispatch connect req app = Some (a, app')
    /\ (forall e, a = Served e -> e = Health)
    /\ (cors req = CallNext ->
        express_json req = CallNext ->
        route_matches GET "/" req = false ->
        a = Sent 404 "Route not found"
        \/ (a = Sent 500 "Server startup error"
            /\ routesAttached app = false /\ connect = None)).
Proof.
  intros app.
  assert (H : attached_or_not app)
    by apply serve_requests_attached_or_not, load_attached_or_not.
  rewrite dispatch_run by assumption.
  destruct (cors req) eqn:Hc;
    try (eexists _, _; split; [reflexivity|]; split; [|]; congruence).
  destruct (express_json req) eqn:Hj;
    try (eexists _, _; split; [reflexivity|]; split; [|]; congruence).
  destruct (route_matches GET "/" req) eqn:Hm;
    try (eexists _, _; split; [reflexivity|]; split; [|]; congruence).
  unfold attachRoutes.
  destruct (routesAttached app) eqn:Hf.
  - eexists _, _. split; [reflexivity|]. split; [congruence | auto].
  - unfold getDb. cbn.
    destruct (cachedClient app), (cachedDb app), connect;
      eexists _, _; (split; [reflexivity|]); (split; [congruence | auto]).
Qed.

(** A failed start is never repaired.  When the first request that runs
    [attachRoutes] finds the database unreachable it gets 500 'Server
    startup error', and the flag stays set: from then on no request
    changes the state, whatever a connection attempt would give (none is
    made), no API route is ever registered, and every request that
    [cors()] and [express.json()] pass on and that is not for the health
    check gets 404 'Route not found'. *)
Theorem failed_start_is_permanent req :
  cors req = CallNext ->
  express_json req = CallNext ->
  route_matches GET "/" req = false ->
  let app1 := set_routesAttached true (load None None) in
  dispatch None req (load None None) = Some (Sent 500 "Server startup error", app1)
  /\ forall rs connect' req',
      serve_requests rs app1 = app1
      /\ (cors req' = CallNext ->
          express_json req' = CallNext ->
          route_matches GET "/" req' = false ->
          dispatch connect' req' app1 = Some (Sent 404 "Route not found", app1)).
Proof.
  intros Hc Hj Hm app1.
  assert (H1 : attached_or_not app1) by now left.
  split.
  - rewrite dispatch_run by apply load_attached_or_not.
    now rewrite Hc, Hj, Hm.
  - intros rs connect' req'. split.
    + induction rs as [|[connect r] rs IH]; cbn [serve_requests]; [reflexivity|].
      destruct (dispatch_attached_or_not connect r app1 H1)
        as (a & app' & -> & _ & Hsame).
      now rewrite (Hsame eq_refl).
    + intros Hc' Hj' Hm'. rewrite dispatch_run by assumption.
      now rewrite Hc', Hj', Hm'.
Qed.

(** In server.js the API routes are reached.  Once [run()] has connected,
    a request that [cors()] and [express.json()] pass on is served by the
    first route, in the order of registration and the health check
    included, that takes it; a request no route takes falls off the end of
    the stack.  Before that, and for good when the connection is refused,
    only the health check is registered. *)
Theorem server_routes_reached connect req :
  cors req = CallNext ->
  express_json req = CallNext ->
  dispatch connect req (run true server_load)
  = Some (match first_route req (Route GET "/" Health :: server_routes) with
          | Some e => Served e
          | None => Unanswered false
          end, run true server_load)
  /\ dispatch connect req (run false server_load)
     = Some (if route_matches GET "/" req then Served Health
             else Unanswered false, server_load).
Proof.
  intros Hc Hj. unfold dispatch. split.
  - cbn -[next]. repeat (rewrite next_S; cbn -[next]; rewrite ?Hc, ?Hj).
    repeat (match goal with
            | |- context [route_matches ?m ?p req] =>
                destruct (route_matches m p req); [reflexivity|]
            end).
    reflexivity.
  - cbn -[next]. repeat (rewrite next_S; cbn -[next]; rewrite ?Hc, ?Hj).
    destruct (route_matches GET "/" req); reflexivity.
Qed.

End ApplicationFacts.

(** * Runs on the example stores

    The routes run over the hexadecimal ObjectIds and with sums that do
    not round. *)

Import Exact.
Import Example.

Lemma alice_identified : alice <> "".
Proof. discriminate. Defined.

(** Join twice on [db0]: 201 then 200, one enrollment, counter at 1. *)
Lemma join_idempotent_witness :
  response (join 10 11 uc1_id (Some alice) plastic_id db0)
  = json 201 (Joined uc1_id uc1)
  /\ response (join 20 21 uc2_id (Some alice) plastic_id
                 (store (join 10 11 uc1_id (Some alice) plastic_id db0)))
     = json 200 (AlreadyJoined uc1)
  /\ store (join 20 21 uc2_id (Some alice) plastic_id
              (store (join 10 11 uc1_id (Some alice) plastic_id db0)))
     = db1
  /\ response (join 20 21 uc2_id (Some alice) plastic_id db1)
     = json 200 (AlreadyJoined uc1)
  /\ store (join 20 21 uc2_id (Some alice) plastic_id db1) = db1.
Proof.
  destruct (join_idempotent 10 11 uc1_id 20 21 uc2_id alice plastic_id db0 plastic
              alice_identified eq_refl) as [_ Hfresh].
  destruct (Hfresh eq_refl eq_refl) as (H1 & H2 & H3 & _).
  destruct (join_idempotent 20 21 uc2_id 20 21 uc2_id alice plastic_id db1
              (inc_participants 1 plastic) alice_identified eq_refl) as [Hagain _].
  destruct (Hagain uc1 eq_refl) as (H4 & H5 & _).
  exact (conj H1 (conj H2 (conj H3 (conj H4 H5)))).
Defined.

(** Join on [db0]: 404 for an id nothing is stored under, 201 for [plastic]. *)
Lemma join_not_found_or_created_witness :
  response (join 10 11 uc1_id (Some alice) "ffffffffffffffffffffffff" db0)
  = json 404 (Message "Challenge not found")
  /\ store (join 10 11 uc1_id (Some alice) "ffffffffffffffffffffffff" db0) = db0
  /\ response (join 10 11 uc1_id (Some alice) plastic_id db0)
     = json 201 (Joined uc1_id uc1)
  /\ store (join 10 11 uc1_id (Some alice) plastic_id db0) = db1.
Proof.
  destruct (join_not_found_or_created 10 11 uc1_id alice "ffffffffffffffffffffffff"
              db0 alice_identified) as [Hmissing _].
  destruct (Hmissing eq_refl) as [H1 H2].
  destruct (join_not_found_or_created 10 11 uc1_id alice plastic_id
              db0 alice_identified) as [_ Hcreated].
  destruct (Hcreated plastic eq_refl eq_refl eq_refl) as (uc & H3 & _).
  exact (conj H1 (conj H2 (conj eq_refl eq_refl))).
Defined.

Lemma bob_identified : bob <> "".
Proof. discriminate. Defined.

(** Bob on Alice's enrollment: 403; on an id nothing is stored under: 404;
    on a malformed id: 500; the store stays [db1] each time. *)
Lemma refusals_change_nothing_witness :
  (statusCode (response (updateProgress 20 21 (Some bob) uc1_id (only_progress (num 50)) db1)) = 403%nat
   /\ statusCode (response (leave (Some bob) uc1_id db1)) = 403%nat
   /\ store (updateProgress 20 21 (Some bob) uc1_id (only_progress (num 50)) db1) = db1
   /\ store (leave (Some bob) uc1_id db1) = db1)
  /\ (statusCode (response (updateProgress 20 21 (Some bob) uc2_id (only_progress (num 50)) db1)) = 404%nat
      /\ statusCode (response (leave (Some bob) uc2_id db1)) = 404%nat
      /\ store (updateProgress 20 21 (Some bob) uc2_id (only_progress (num 50)) db1) = db1
      /\ store (leave (Some bob) uc2_id db1) = db1)
  /\ (statusCode (response (updateProgress 20 21 (Some bob) "abc" (only_progress (num 50)) db1)) = 500%nat
      /\ statusCode (response (leave (Some bob) "abc" db1)) = 500%nat
      /\ store (updateProgress 20 21 (Some bob) "abc" (only_progress (num 50)) db1) = db1
      /\ store (leave (Some bob) "abc" db1) = db1).
Proof.
  split; [|split].
  - destruct (refusals_change_nothing 20 21 bob uc1_id (only_progress (num 50)) db1
                bob_identified) as [_ H].
    destruct (H uc1_id eq_refl) as [_ Hforbidden].
    apply (Hforbidden uc1 eq_refl). discriminate.
  - destruct (refusals_change_nothing 20 21 bob uc2_id (only_progress (num 50)) db1
                bob_identified) as [_ H].
    destruct (H uc2_id eq_refl) as [Hmissing _].
    apply (Hmissing eq_refl).
  - destruct (refusals_change_nothing 20 21 bob "abc" (only_progress (num 50)) db1
                bob_identified) as [Hmalformed _].
    apply (Hmalformed eq_refl).
Defined.

(** C5 at its failing input, a malformed id: the store holds no enrollment
    at all, so none is named by "abc", and UpdateProgress and Leave both
    reply 500 where NotFound is 404 (the store is left as it was). *)
Theorem malformed_id_is_not_NotFound :
  userChallenges db0 = []
  /\ statusCode (response (updateProgress 20 21 (Some alice) "abc"
                             (only_progress (num 50)) db0)) = 500%nat
  /\ statusCode (response (leave (Some alice) "abc" db0)) = 500%nat
  /\ statusCode (response (leave (Some alice) "abc" db0)) <> 404%nat
  /\ store (updateProgress 20 21 (Some alice) "abc" (only_progress (num 50)) db0) = db0
  /\ store (leave (Some alice) "abc" db0) = db0.
Proof. repeat split. discriminate. Qed.

(** Alice leaves the enrollment whose challenge is gone. *)
Lemma orphan_leave_succeeds_witness :
  response (leave (Some alice) uc1_id db_orphan) = json 200 LeftChallenge
  /\ userChallenges (store (leave (Some alice) uc1_id db_orphan)) = []
  /\ challenges (store (leave (Some alice) uc1_id db_orphan)) = [seeded]
  /\ issued (leave (Some alice) uc1_id db_orphan)
     = [OpFindOne UserChallenges; OpDeleteOne UserChallenges 1;
        OpUpdateOne Challenges 0].
Proof.
  destruct (orphan_leave_succeeds alice uc1_id uc1_id uc1 db_orphan
              alice_identified eq_refl eq_refl eq_refl eq_refl)
    as (H1 & _ & H3 & H4).
  exact (conj H1 (conj eq_refl (conj H3 H4))).
Defined.

Lemma db1_unique : unique_challenge_ids db1.
Proof.
  repeat constructor; rewrite ?list_elem_of_In; cbn; intuition discriminate.
Defined.

Lemma db_mixed_unique : unique_challenge_ids db_mixed.
Proof.
  repeat constructor; rewrite ?list_elem_of_In; cbn; intuition discriminate.
Defined.

(** On [db_mixed], where the counter of [plastic] is at 0 and another
    counter is negative: after three Leaves the counter of [plastic] is
    still not negative; Alice's Leave takes her enrollment out and leaves
    Bob's, and writes no challenge.  On [db1], where the counter is at 1,
    Alice's Leave brings it to 0.  Join, Join, Leave, Leave from [db0]:
    1, 1, 0, 0. *)
Lemma counter_never_negative_witness :
  (exists n',
      counter (serve [Leave (Some alice) uc1_id; Leave (Some bob) uc2_id;
                      Leave (Some alice) uc1_id] db_mixed) plastic_ref = Some n'
      /\ (0 <= n')%Z)
  /\ response (leave (Some alice) uc1_id db_mixed) = json 200 LeftChallenge
  /\ userChallenges (store (leave (Some alice) uc1_id db_mixed)) = [uc_bob]
  /\ challenges (store (leave (Some alice) uc1_id db_mixed)) = challenges db_mixed
  /\ counter (store (leave (Some alice) uc1_id db1)) plastic_ref = Some 0%Z
  /\ map (fun db => counter db plastic_ref)
       [ serve [Join 10 11 uc1_id (Some alice) plastic_id] db0;
         serve [Join 10 11 uc1_id (Some alice) plastic_id;
                Join 20 21 uc2_id (Some alice) plastic_id] db0;
         serve [Join 10 11 uc1_id (Some alice) plastic_id;
                Join 20 21 uc2_id (Some alice) plastic_id;
                Leave (Some alice) uc1_id] db0;
         serve [Join 10 11 uc1_id (Some alice) plastic_id;
                Join 20 21 uc2_id (Some alice) plastic_id;
                Leave (Some alice) uc1_id;
                Leave (Some alice) uc1_id] db0 ]
     = [Some 1; Some 1; Some 0; Some 0]%Z
  /\ map statusCode
       (replies [Join 10 11 uc1_id (Some alice) plastic_id;
                 Join 20 21 uc2_id (Some alice) plastic_id;
                 Leave (Some alice) uc1_id;
                 Leave (Some alice) uc1_id] db0)
     = [201; 200; 200; 404]%nat.
Proof.
  destruct (counter_never_negative db_mixed) as [Hserve Hleave].
  destruct (Hleave alice uc1_id uc1_id uc1 alice_identified eq_refl eq_refl eq_refl)
    as (H1 & _ & _ & _ & Hcount).
  destruct (Hcount db_mixed_unique) as (_ & Hzero & _).
  destruct (counter_never_negative db1) as [_ Hleave1].
  destruct (Hleave1 alice uc1_id uc1_id uc1 alice_identified eq_refl eq_refl eq_refl)
    as (_ & _ & _ & _ & Hcount1).
  destruct (Hcount1 db1_unique) as (Hdec & _).
  refine (conj (Hserve _ plastic_ref 0%Z eq_refl _)
            (conj H1 (conj eq_refl (conj (Hzero 0%Z eq_refl _)
               (conj (Hdec 1%Z eq_refl _) (conj eq_refl eq_refl)))))); lia.
Defined.

Lemma db1_progress_ok : Forall progress_ok (userChallenges db1).
Proof. repeat constructor; cbn; discriminate. Defined.

(** Progress 150 is stored as 100 with status Finished, -5 as 0 with
    status Ongoing. *)
Lemma progress_clamped_witness :
  Forall progress_ok
    (userChallenges
       (serve [UpdateProgress 20 21 (Some alice) uc1_id (only_progress (num 150));
               UpdateProgress 30 31 (Some alice) uc1_id (only_progress (num (-5)))]
              db1))
  /\ (exists u,
        response (updateProgress 20 21 (Some alice) uc1_id
                    (only_progress (num 150)) db1) = json 200 (Updated (Some u))
        /\ progress u = num 100 /\ status u = Finished)
  /\ (exists u,
        response (updateProgress 20 21 (Some alice) uc1_id
                    (only_progress (num (-5))) db1) = json 200 (Updated (Some u))
        /\ progress u = num 0 /\ status u = Ongoing).
Proof.
  destruct (progress_clamped db1) as [Hserve Hcall].
  split; [|split].
  - apply Hserve; [exact db1_progress_ok | repeat constructor].
  - destruct (Hcall 20 21 alice uc1_id uc1_id uc1 (num 150) JSundefined
                alice_identified eq_refl eq_refl eq_refl eq_refl)
      as (u & Hr & _ & _ & _ & _ & Hhi & _ & Hs & _).
    exists u. split; [exact Hr|]. split; [exact (Hhi eq_refl) | exact Hs].
  - destruct (Hcall 20 21 alice uc1_id uc1_id uc1 (num (-5)) JSundefined
                alice_identified eq_refl eq_refl eq_refl eq_refl)
      as (u & Hr & _ & _ & _ & Hlo & _ & _ & Hs & _).
    exists u. split; [exact Hr|]. split; [exact (Hlo eq_refl) | exact Hs].
Defined.

(** The handler itself has no guard against NaN, which is a number: were
    it handed a body holding NaN, as no JSON text can produce, the stored
    progress would be NaN. *)
Lemma NaN_progress_is_stored :
  progress <$> first_match (by_id uc1_id)
     (userChallenges
        (serve [Join 10 11 uc1_id (Some alice) plastic_id;
                UpdateProgress 20 21 (Some alice) uc1_id (only_progress NaN)]
               db0))
  = Some NaN
  /\ ~ in_0_100 NaN
  /\ ~ Forall progress_ok
       (userChallenges
          (serve [Join 10 11 uc1_id (Some alice) plastic_id;
                  UpdateProgress 20 21 (Some alice) uc1_id (only_progress NaN)]
                 db0)).
Proof.
  split; [reflexivity|]. split; [exact (fun H => H)|].
  intros H. apply Forall_inv in H. destruct H as [H _]. exact H.
Qed.

(** On [db1]: Alice logs 5, Bob tries to log 7 on her enrollment, Alice
    sets her progress, joins again, asks for her list and logs 3.  Her log
    is 5 then 3.  And two logged values, 5 then 3, leave progress and
    status as they were. *)
Lemma log_append_only_witness :
  (exists u,
      first_match (by_id uc1_id)
        (userChallenges
           (serve [UpdateProgress 20 21 (Some alice) uc1_id (only_log (num 5));
                   UpdateProgress 22 23 (Some bob) uc1_id (only_log (num 7));
                   UpdateProgress 24 25 (Some alice) uc1_id (only_progress (num 50));
                   Join 26 27 uc2_id (Some alice) plastic_id;
                   ListMine (Some alice);
                   UpdateProgress 30 31 (Some alice) uc1_id (only_log (num 3))]
                  db1)) = Some u
      /\ progressLogs u = [ {| date := 20; value := num 5 |};
                            {| date := 30; value := num 3 |} ])
  /\ (exists u,
        first_match (by_id uc1_id)
          (userChallenges
             (serve [UpdateProgress 20 21 (Some alice) uc1_id (only_log (num 5));
                     UpdateProgress 30 31 (Some alice) uc1_id (only_log (num 3))]
                    db1)) = Some u
        /\ progressLogs u = [ {| date := 20; value := num 5 |};
                              {| date := 30; value := num 3 |} ]
        /\ length (progressLogs u) = 2%nat
        /\ progress u = num 0 /\ status u = Ongoing).
Proof.
  destruct (log_append_only db1 uc1_id uc1 eq_refl) as [Hany Hcalls].
  split.
  - destruct (Hany [UpdateProgress 20 21 (Some alice) uc1_id (only_log (num 5));
                    UpdateProgress 22 23 (Some bob) uc1_id (only_log (num 7));
                    UpdateProgress 24 25 (Some alice) uc1_id (only_progress (num 50));
                    Join 26 27 uc2_id (Some alice) plastic_id;
                    ListMine (Some alice);
                    UpdateProgress 30 31 (Some alice) uc1_id (only_log (num 3))])
      as (u & Hu & _ & Hlogs & _); [repeat constructor|].
    exists u. split; [exact Hu | exact Hlogs].
  - destruct (Hcalls alice uc1_id
                [(20, 21, JSundefined, num 5); (30, 31, JSundefined, num 3)]
                alice_identified eq_refl eq_refl)
      as (u & Hu & Hlogs & Hlen & Hkeep).
    exists u. split; [exact Hu|]. split; [exact Hlogs|]. split; [exact Hlen|].
    apply Hkeep. repeat constructor; discriminate.
Defined.



(** ** Join of server.js on a malformed id *)

(** C4 at its failing input, Join of server.js on the id "abc": no
    challenge is stored under "abc" or under an [_id] that prints as it,
    so the challenge referenced does not exist; yet the reply is 500 where
    NotFound is 404, since [new ObjectId("abc")] throws before the lookup
    (the store is left as it was).  Join of api/index.js replies 404 to the
    same request, and on the id of a stored challenge the two copies
    create the same enrollment. *)
Theorem server_join_malformed_id_is_not_NotFound :
  Forall (fun c => id_String (ch_id c) <> "abc") (challenges db0)
  /\ response (server_join 10 11 uc1_id (Some alice) "abc" db0)
     = json 500 (Failure "Failed to join challenge" BSONError)
  /\ statusCode (response (server_join 10 11 uc1_id (Some alice) "abc" db0))
     <> 404%nat
  /\ store (server_join 10 11 uc1_id (Some alice) "abc" db0) = db0
  /\ response (join 10 11 uc1_id (Some alice) "abc" db0)
     = json 404 (Message "Challenge not found")
  /\ server_join 10 11 uc1_id (Some alice) plastic_id db0
     = join 10 11 uc1_id (Some alice) plastic_id db0
  /\ store (server_join 10 11 uc1_id (Some alice) plastic_id db0) = db1.
Proof.
  split; [repeat constructor; discriminate|].
  repeat split. discriminate.
Qed.

(** ** ListMine on a challenge with a string [_id] *)

(** C8 at its failing input: Alice joins the challenge stored under the
    string _id of 24 upper-case digits; the enrollment references that
    string, and the challenge is stored under it; yet the listing of
    api/index.js pairs the enrollment with no challenge, since it looks
    the string up as an ObjectId.  The listing of server.js pairs it with
    the challenge. *)
Theorem listMine_misses_string_challenge :
  store (join 10 11 uc1_id (Some alice) seeded_id db0) = db_seeded
  /\ first_match (by_ch_id (challengeId uc_seeded)) (challenges db_seeded)
     = Some (inc_participants 1 seeded)
  /\ response (listMine (Some alice) db_seeded)
     = json 200 (Populated [(uc_seeded, None)])
  /\ response (server_listMine (Some alice) db_seeded)
     = json 200 (Populated [(uc_seeded, Some (inc_participants 1 seeded))]).
Proof. repeat split. Qed.

(** On [db_seeded] the listing of api/index.js looks the string reference
    up as an ObjectId. *)
Lemma listMine_run_witness :
  response (listMine (Some alice) db_seeded)
  = json 200 (Populated [(uc_seeded, None)]).
Proof. exact (listMine_run alice db_seeded alice_identified). Defined.

(** On [db1] Alice's enrollment references an ObjectId and is paired with
    its challenge. *)
Lemma listMine_resolved_witness :
  response (listMine (Some alice) db1)
  = json 200 (Populated [(uc1, Some (inc_participants 1 plastic))]).
Proof.
  apply (listMine_resolved alice db1 alice_identified).
  repeat constructor.
Defined.

Lemma server_listMine_exact_witness :
  response (server_listMine (Some alice) db_seeded)
  = json 200 (Populated [(uc_seeded, Some (inc_participants 1 seeded))]).
Proof. exact (server_listMine_exact alice db_seeded alice_identified). Defined.

(** On [db0] and the id of [plastic] the two copies of Join agree. *)
Lemma server_join_agrees_witness :
  server_join 10 11 uc1_id (Some alice) plastic_id db0
  = join 10 11 uc1_id (Some alice) plastic_id db0.
Proof.
  exact (server_join_agrees 10 11 uc1_id alice plastic_id plastic_id db0
           alice_identified eq_refl eq_refl eq_refl).
Defined.

Lemma server_join_malformed_witness :
  statusCode (response (server_join 10 11 uc1_id (Some alice) "abc" db0)) = 500%nat
  /\ store (server_join 10 11 uc1_id (Some alice) "abc" db0) = db0.
Proof.
  exact (server_join_malformed 10 11 uc1_id alice "abc" db0 alice_identified eq_refl).
Defined.

Lemma db0_one_per_pair : one_per_pair db0.
Proof. intros email ref. cbn. lia. Defined.

(** Two Joins of Alice and one of Bob leave one enrollment of Alice in
    [plastic]. *)
Lemma one_enrollment_per_pair_witness :
  Nat.le
    (length (List.filter (enrolled alice plastic_ref)
               (userChallenges
                  (serve [Join 10 11 uc1_id (Some alice) plastic_id;
                          Join 20 21 uc2_id (Some alice) plastic_id;
                          Join 30 31 uc3_id (Some bob) plastic_id] db0))))
    1.
Proof.
  exact (one_enrollment_per_pair
           [Join 10 11 uc1_id (Some alice) plastic_id;
            Join 20 21 uc2_id (Some alice) plastic_id;
            Join 30 31 uc3_id (Some bob) plastic_id] db0 db0_one_per_pair
           alice plastic_ref).
Defined.

Lemma db0_counters_consistent : counters_consistent db0.
Proof.
  split.
  - repeat constructor; rewrite ?list_elem_of_In; cbn; intuition discriminate.
  - repeat constructor.
Defined.

(** Joins, a repeated Join and Leaves keep the counters of [db0] equal to
    the numbers of enrollments. *)
Lemma counters_stay_consistent_witness :
  counters_consistent
    (serve [Join 10 11 uc1_id (Some alice) plastic_id;
            Join 20 21 uc2_id (Some alice) plastic_id;
            Join 30 31 uc3_id (Some bob) plastic_id;
            Leave (Some alice) uc1_id;
            Leave (Some alice) uc1_id] db0)
  /\ counter
       (serve [Join 10 11 uc1_id (Some alice) plastic_id;
               Join 20 21 uc2_id (Some alice) plastic_id;
               Join 30 31 uc3_id (Some bob) plastic_id;
               Leave (Some alice) uc1_id;
               Leave (Some alice) uc1_id] db0) plastic_ref = Some 1%Z.
Proof.
  split; [|reflexivity].
  exact (counters_stay_consistent _ db0 db0_counters_consistent).
Defined.

(** ** Challenge deletion on the example stores *)

(** On [db1], where Bob created [plastic] and Alice is enrolled in it: no
    header gets 401, Alice gets 403, an id nothing is stored under gets
    404, and Bob deletes the challenge. *)
Lemma deleteChallenge_owner_only_witness :
  result (deleteChallenge None plastic_id db1)
  = inr (Refusal 401 "Unauthorized. Send x-user-email header for now.")
  /\ (result (deleteChallenge (Some alice) plastic_id db1)
      = inr (Refusal 403 "Forbidden: only owner can delete")
      /\ store (deleteChallenge (Some alice) plastic_id db1) = db1)
  /\ (result (deleteChallenge (Some bob) "ffffffffffffffffffffffff" db1)
      = inr (Refusal 404 "Challenge not found")
      /\ store (deleteChallenge (Some bob) "ffffffffffffffffffffffff" db1) = db1)
  /\ result (deleteChallenge (Some bob) plastic_id db1) = inr (Deleted 1)
  /\ challenges (store (deleteChallenge (Some bob) plastic_id db1)) = [seeded]
  /\ first_match (by_ch_id plastic_ref)
       (challenges (store (deleteChallenge (Some bob) plastic_id db1))) = None.
Proof.
  destruct (deleteChallenge_owner_only None plastic_id db1) as [Hnone _].
  destruct (Hnone (or_introl eq_refl)) as [H1 _].
  destruct (deleteChallenge_owner_only (Some alice) plastic_id db1) as [_ Ha].
  destruct (Ha alice eq_refl alice_identified) as [_ Ha'].
  destruct (Ha' (inc_participants 1 plastic) eq_refl) as [H2 _].
  destruct (deleteChallenge_owner_only (Some bob) "ffffffffffffffffffffffff" db1)
    as [_ Hb].
  destruct (Hb bob eq_refl bob_identified) as [H3 _].
  destruct (deleteChallenge_owner_only (Some bob) plastic_id db1) as [_ Hc].
  destruct (Hc bob eq_refl bob_identified) as [_ Hc'].
  destruct (Hc' (inc_participants 1 plastic) eq_refl) as [_ Hd].
  destruct (Hd eq_refl) as (H4 & H5 & _ & H6).
  refine (conj H1 (conj _ (conj (H3 eq_refl) (conj H4 (conj _ (H6 db1_unique)))))).
  - apply H2. discriminate.
  - rewrite H5. reflexivity.
Defined.

(** Bob deletes [plastic] on [db1]: Alice's enrollment stays, is listed
    with no challenge, cannot be joined again, and Alice can leave it. *)
Lemma deleted_challenge_orphans_enrollments_witness :
  userChallenges (store (deleteChallenge (Some bob) plastic_id db1)) = [uc1]
  /\ paired (store (deleteChallenge (Some bob) plastic_id db1)) uc1 = (uc1, None)
  /\ response (join 20 21 uc2_id (Some alice) plastic_id
                 (store (deleteChallenge (Some bob) plastic_id db1)))
     = json 404 (Message "Challenge not found")
  /\ response (leave (Some alice) uc1_id
                 (store (deleteChallenge (Some bob) plastic_id db1)))
     = json 200 LeftChallenge
  /\ userChallenges
       (store (leave (Some alice) uc1_id
                 (store (deleteChallenge (Some bob) plastic_id db1)))) = []
  /\ challenges
       (store (leave (Some alice) uc1_id
                 (store (deleteChallenge (Some bob) plastic_id db1)))) = [seeded].
Proof.
  destruct (deleted_challenge_orphans_enrollments bob alice plastic_id uc1_id uc1_id
              uc1 (inc_participants 1 plastic) db1
              bob_identified alice_identified db1_unique
              eq_refl eq_refl eq_refl eq_refl eq_refl eq_refl)
    as (H1 & H2 & H3 & H4 & H5 & H6).
  refine (conj H1 (conj H2 (conj _ (conj H4 (conj H5 H6))))).
  now rewrite H3.
Defined.

(** Alice joins [plastic], Bob deletes it, Alice leaves: the invariants of
    [db0] hold at the end, where only [seeded] is stored. *)
Lemma deletions_keep_invariants_witness :
  counters_consistent
    (perform_all [Participation (Join 10 11 uc1_id (Some alice) plastic_id);
                  DeleteChallenge (Some bob) plastic_id;
                  Participation (Leave (Some alice) uc1_id)] db0)
  /\ one_per_pair
       (perform_all [Participation (Join 10 11 uc1_id (Some alice) plastic_id);
                     DeleteChallenge (Some bob) plastic_id;
                     Participation (Leave (Some alice) uc1_id)] db0)
  /\ challenges
       (perform_all [Participation (Join 10 11 uc1_id (Some alice) plastic_id);
                     DeleteChallenge (Some bob) plastic_id;
                     Participation (Leave (Some alice) uc1_id)] db0) = [seeded]
  /\ userChallenges
       (perform_all [Participation (Join 10 11 uc1_id (Some alice) plastic_id);
                     DeleteChallenge (Some bob) plastic_id;
                     Participation (Leave (Some alice) uc1_id)] db0) = [].
Proof.
  destruct (deletions_keep_invariants
              [Participation (Join 10 11 uc1_id (Some alice) plastic_id);
               DeleteChallenge (Some bob) plastic_id;
               Participation (Leave (Some alice) uc1_id)] db0)
    as (_ & Hpair & Hcons).
  exact (conj (Hcons db0_counters_consistent)
           (conj (Hpair db0_one_per_pair) (conj eq_refl eq_refl))).
Defined.

(** On the id of [plastic] the two copies of the deletion agree; on "abc"
    server.js replies 500. *)
Lemma server_deleteChallenge_agrees_witness :
  server_deleteChallenge (Some bob) plastic_id db1
  = deleteChallenge (Some bob) plastic_id db1
  /\ server_deleteChallenge (Some bob) "abc" db1
     = mkRun (inr (Failed "Failed to delete challenge" BSONError)) db1 [].
Proof.
  destruct (server_deleteChallenge_agrees bob plastic_id db1 bob_identified)
    as [Hagree _].
  destruct (server_deleteChallenge_agrees bob "abc" db1 bob_identified)
    as [_ Hmalformed].
  exact (conj (Hagree plastic_id eq_refl eq_refl eq_refl) (Hmalformed eq_refl)).
Defined.

(** ** The application on the literal router *)

(** A second call of [getDb] keeps the first client. *)
Lemma getDb_connects_once_witness :
  getDb (Some 7%nat) (load None None)
  = (Some (7%nat, client_db 7%nat),
     snd (getDb (Some 7%nat) (load None None)))
  /\ getDb (Some 8%nat) (snd (getDb (Some 7%nat) (load None None)))
     = (Some (7%nat, client_db 7%nat),
        snd (getDb (Some 7%nat) (load None None))).
Proof.
  split; [reflexivity|].
  exact (proj1 (getDb_connects_once (Some 7%nat) (Some 8%nat) (load None None))
           _ _ eq_refl).
Defined.

(** The first request, for the statistics and with the database in reach:
    the route for it is registered by that very request, takes such a
    request, and the reply is 404 'Route not found'. *)
Lemma api_routes_never_reached_witness :
  route_matches GET "/api/stats" stats_request = true
  /\ exists app',
      dispatch (Some 7%nat) stats_request (load None None)
      = Some (Sent 404 "Route not found", app')
      /\ In (Route GET "/api/stats" StatsGet) (stack app').
Proof.
  split; [reflexivity|].
  destruct (api_routes_never_reached None None [] (Some 7%nat) stats_request)
    as (a & app' & Hd & _ & Hp).
  destruct (Hp eq_refl eq_refl eq_refl) as [-> | (_ & _ & Hno)];
    [|discriminate Hno].
  exists app'. split; [exact Hd|].
  injection Hd as <-. cbn. tauto.
Defined.

(** The database out of reach at the first request, in reach at the
    second: 500 'Server startup error', then 404 'Route not found'. *)
Lemma failed_start_is_permanent_witness :
  dispatch None stats_request (load None None)
  = Some (Sent 500 "Server startup error",
          set_routesAttached true (load None None))
  /\ dispatch (Some 7%nat) stats_request (set_routesAttached true (load None None))
     = Some (Sent 404 "Route not found",
             set_routesAttached true (load None None)).
Proof.
  destruct (failed_start_is_permanent stats_request eq_refl eq_refl eq_refl)
    as [H1 H2].
  destruct (H2 [] (Some 7%nat) stats_request) as [_ H3].
  exact (conj H1 (H3 eq_refl eq_refl eq_refl)).
Defined.

(** In server.js the request for the statistics reaches its handler. *)
Lemma server_routes_reached_witness :
  dispatch None stats_request (run true server_load)
  = Some (Served StatsGet, run true server_load)
  /\ dispatch None stats_request (run false server_load)
     = Some (Unanswered false, server_load).
Proof.
  exact (server_routes_reached None stats_request eq_refl eq_refl).
Defined.
